(** * go-flink-sql: connector, DSN parsing and the session/operation/result engine

    A shallow embedding of [connector.go] and [driver.go] (package [flink]),
    together with spec-level models of the parts of the package whose
    source is not available (property parsing and merging, the operation
    poller, the result pager and the wire value decoder).

    Go strings are byte sequences: they are modelled by [string] (a list
    of 8-bit characters).  A Go [map[string]string] is a [gmap string
    string]; since the code tests maps against [nil], a map-typed
    variable is an [option]: [None] is the nil map. *)

From Stdlib Require Import Ascii ZArith.
From stdpp Require Import base option list strings gmap fin_maps.

Local Open Scope Z_scope.
Local Open Scope nat_scope.

(** ** Errors and results *)

(** Go [error] values.  [errorString] is an error created by a
    collaborator; [wrapError prefix cause] is
    [fmt.Errorf(prefix + "%w", cause)]. *)
Inductive error : Type :=
  | errorString (msg : string)
  | wrapError (prefix : string) (cause : error).

(** A Go result pair [(v, err)] in which exactly one side is meaningful. *)
Inductive result (A : Type) : Type :=
  | Ok (a : A)
  | Err (e : error).
Arguments Ok {A} a.
Arguments Err {A} e.

Definition is_Ok {A} (r : result A) : bool :=
  match r with Ok _ => true | Err _ => false end.

(** ** The [strings] package functions used by the driver *)

(** [strings.Cut(s, sep)] for a one-byte separator: the text before and
    after the first [sep], and whether [sep] occurs.  When it does not
    occur the result is [(s, "", false)]. *)
Fixpoint Cut (s : string) (sep : ascii) : string * string * bool :=
  match s with
  | EmptyString => (EmptyString, EmptyString, false)
  | String c s' =>
      if Ascii.eqb c sep then (EmptyString, s', true)
      else
        let '(before, after, found) := Cut s' sep in
        (String c before, after, found)
  end.

(** [strings.Split(s, sep)] for a one-byte separator.  The result is never
    empty: [Split "" sep = [""]]. *)
Fixpoint Split (s : string) (sep : ascii) : list string :=
  match s with
  | EmptyString => [EmptyString]
  | String c s' =>
      if Ascii.eqb c sep then EmptyString :: Split s' sep
      else
        match Split s' sep with
        | piece :: pieces => String c piece :: pieces
        | [] => [String c EmptyString]
        end
  end.

(** [strings.Join(pieces, sep)] for a one-byte separator. *)
Fixpoint Join (pieces : list string) (sep : ascii) : string :=
  match pieces with
  | [] => EmptyString
  | [p] => p
  | p :: rest => p +:+ String sep (Join rest sep)
  end.

(** [contains c s]: the byte [c] occurs in [s]. *)
Fixpoint contains (c : ascii) (s : string) : bool :=
  match s with
  | EmptyString => false
  | String c' s' => Ascii.eqb c' c || contains c s'
  end.

(** ** Configuration ([connector.go]) *)

(** [*http.Client]: the nil pointer, [http.DefaultClient], or a client
    supplied by the caller. *)
Inductive HttpClient : Type :=
  | NilClient
  | DefaultClient
  | UserClient (id : nat).

Abbreviation Properties := (gmap string string).

Record ConnConfig : Type := mkConnConfig {
  GatewayURL : string;
  Client : HttpClient;
  APIVersion : string;
  cfgProperties : option Properties
}.

Definition WithDefaults : ConnConfig :=
  {| GatewayURL := "http://localhost:8081";
     Client := DefaultClient;
     APIVersion := "v3";
     cfgProperties := Some ∅ |}.

(** A [ConnOption] mutates the configuration it is given; the mutation is
    the returned configuration. *)
Definition ConnOption : Type := ConnConfig → ConnConfig.

Definition WithGatewayURL (gatewayUrl : string) : ConnOption :=
  λ c, {| GatewayURL := gatewayUrl;
          Client := Client c;
          APIVersion := APIVersion c;
          cfgProperties := cfgProperties c |}.

Definition WithClient (client : HttpClient) : ConnOption :=
  λ c, {| GatewayURL := GatewayURL c;
          Client := client;
          APIVersion := APIVersion c;
          cfgProperties := cfgProperties c |}.

Definition WithAPIVersion (apiVersion : string) : ConnOption :=
  λ c, {| GatewayURL := GatewayURL c;
          Client := Client c;
          APIVersion := apiVersion;
          cfgProperties := cfgProperties c |}.

(** [for k, v := range src { dst[k] = v }].  Go visits the entries in an
    unspecified order; [map_fold] likewise fixes none. *)
Definition rangeAssign (src dst : Properties) : Properties :=
  map_fold (λ k v acc, <[k:=v]> acc) dst src.

(** [len(m)] and ranging over a possibly nil map: nil behaves as empty. *)
Definition entries (m : option Properties) : Properties := default ∅ m.

Definition WithProperties (properties : option Properties) : ConnOption :=
  λ c,
    let dst := match cfgProperties c with
               | None => ∅
               | Some m => m
               end in
    {| GatewayURL := GatewayURL c;
       Client := Client c;
       APIVersion := APIVersion c;
       cfgProperties := Some (rangeAssign (entries properties) dst) |}.

(** [for _, opt := range options { opt(cfg) }] *)
Definition applyOptions (options : list ConnOption) (cfg : ConnConfig) : ConnConfig :=
  foldl (λ c opt, opt c) cfg options.

(** ** Property parsing and merging *)

(** Modelled from the spec: [parseURIParameters] is called by
    [OpenConnector] but its source is missing.  The query fragment is a
    [&]-separated list of [key=value] pairs; a piece without [=] is a
    configuration error, not ignored; a repeated key keeps the value
    applied last. *)
Fixpoint parsePairs (pieces : list string) (acc : Properties) : result Properties :=
  match pieces with
  | [] => Ok acc
  | piece :: rest =>
      match Cut piece "="%char with
      | (k, v, true) => parsePairs rest (<[k:=v]> acc)
      | (_, _, false) => Err (errorString ("invalid parameter: " +:+ piece))
      end
  end.

Definition parseURIParameters (rawQuery : string) : result Properties :=
  parsePairs (Split rawQuery "&"%char) ∅.

(** Modelled from the spec: [mergeProperties] is called by [NewConnector]
    but its source is missing.  The properties carried by the query part
    of the gateway URL are merged with the explicit ones; explicit
    properties override URL-derived ones on key collision. *)
Definition mergeProperties (gatewayURL : string) (explicit : option Properties)
  : result Properties :=
  match Cut gatewayURL "?"%char with
  | (_, rawQuery, true) =>
      if decide (rawQuery = EmptyString) then Ok (entries explicit)
      else
        match parseURIParameters rawQuery with
        | Ok fromURL => Ok (rangeAssign (entries explicit) fromURL)
        | Err e => Err e
        end
  | (_, _, false) => Ok (entries explicit)
  end.

(** ** The gateway client, the connector and the driver *)

Record OpenSessionRequest : Type := mkOpenSessionRequest {
  reqProperties : option Properties
}.

(** The calls that reach the gateway, in the order they are issued. *)
Inductive GatewayCall : Type :=
  | CallOpenSession (req : OpenSessionRequest)
  | CallCloseSession (handle : string).

Section Driver.

(** The state of the remote gateway, as far as the client's answers
    depend on it. *)
Variable G : Type.

(** The [GatewayClient] interface, restricted to the two methods the
    connector calls.  [OpenSession] returns Go's pair
    [(handle, err)]; nothing is assumed about the handle returned
    together with a non-nil error, nor about the one returned with a
    nil error. *)
Record GatewayClient : Type := mkGatewayClient {
  OpenSession : OpenSessionRequest → G → (string * option error) * G;
  CloseSession : string → G → option error * G
}.

(** The gateway's state and the log of the calls issued so far.  The log
    is bookkeeping of the model: it is what lets a statement say that a
    call was, or was not, issued. *)
Record World : Type := mkWorld {
  gateway : G;
  calls : list GatewayCall
}.

(** [NewClient(gatewayURL, client, apiVersion)] builds the gateway client
    or fails.  Its source is missing, so it is a parameter of the
    development: every statement below holds for any [NewClient]. *)
Variable NewClient : string → HttpClient → string → result GatewayClient.

Record connector : Type := mkConnector {
  client : GatewayClient;
  sessionHandle : string;
  config : ConnConfig;
  properties : option Properties
}.

Record flinkConn : Type := mkFlinkConn {
  connClient : GatewayClient;
  connSessionHandle : string
}.

Definition setSessionHandle (c : connector) (h : string) : connector :=
  {| client := client c;
     sessionHandle := h;
     config := config c;
     properties := properties c |}.

Definition NewConnector (options : list ConnOption) : result connector :=
  let cfg := applyOptions options WithDefaults in
  match mergeProperties (GatewayURL cfg) (cfgProperties cfg) with
  | Err e =>
      Err (wrapError "flink: error while merging connector properties: " e)
  | Ok mergedProps =>
      match NewClient (GatewayURL cfg) (Client cfg) (APIVersion cfg) with
      | Err e => Err (wrapError "flink: error while creating flink client: " e)
      | Ok flinkClient =>
          Ok {| client := flinkClient;
                sessionHandle := EmptyString;
                config := cfg;
                properties := Some mergedProps |}
      end
  end.

(** [Connect]: the connector is updated in place, so the new connector
    is returned next to the result.  The assignment
    [c.sessionHandle, err = c.client.OpenSession(...)] stores the
    returned handle before [err] is inspected. *)
Definition Connect (c : connector) (w : World)
  : result flinkConn * connector * World :=
  if decide (sessionHandle c = EmptyString) then
    let req := {| reqProperties := properties c |} in
    let '((h, err), g') := OpenSession (client c) req (gateway w) in
    let w' := {| gateway := g'; calls := calls w ++ [CallOpenSession req] |} in
    let c' := setSessionHandle c h in
    match err with
    | Some e => (Err (wrapError "flink: failed to open session: " e), c', w')
    | None =>
        (Ok {| connClient := client c'; connSessionHandle := sessionHandle c' |},
         c', w')
    end
  else
    (Ok {| connClient := client c; connSessionHandle := sessionHandle c |}, c, w).

(** [Close]: the result of [CloseSession] is dropped and no field of the
    connector is assigned. *)
Definition Close (c : connector) (w : World) : option error * connector * World :=
  if decide (sessionHandle c ≠ EmptyString) then
    let '(_, g') := CloseSession (client c) (sessionHandle c) (gateway w) in
    (None, c,
     {| gateway := g';
        calls := calls w ++ [CallCloseSession (sessionHandle c)] |})
  else (None, c, w).

(** [sqlDriver.OpenConnector] *)
Definition OpenConnector (dsn : string) : result connector :=
  let finish (baseDSN : string) (props : option Properties) :=
    let options :=
      [WithGatewayURL baseDSN] ++
      (if decide (size (entries props) ≠ 0) then [WithProperties props] else []) in
    NewConnector options in
  match Cut dsn "?"%char with
  | (trimmed, rawQuery, true) =>
      if decide (rawQuery ≠ EmptyString) then
        match parseURIParameters rawQuery with
        | Err e => Err (wrapError "flink: invalid DSN properties: " e)
        | Ok parsed => finish trimmed (Some parsed)
        end
      else finish trimmed None
  | (_, _, false) => finish dsn None
  end.

(** [sqlDriver.Open] *)
Definition Open (dsn : string) (w : World)
  : result flinkConn * option connector * World :=
  match OpenConnector dsn with
  | Err e => (Err e, None, w)
  | Ok conn =>
      let '(r, conn', w') := Connect conn w in (r, Some conn', w')
  end.

End Driver.

Arguments mkGatewayClient {G} _ _.
Arguments OpenSession {G} _ _ _.
Arguments CloseSession {G} _ _ _.
Arguments mkWorld {G} _ _.
Arguments gateway {G} _.
Arguments calls {G} _.
Arguments mkConnector {G} _ _ _ _.
Arguments client {G} _.
Arguments sessionHandle {G} _.
Arguments config {G} _.
Arguments properties {G} _.
Arguments mkFlinkConn {G} _ _.
Arguments connClient {G} _.
Arguments connSessionHandle {G} _.
Arguments setSessionHandle {G} c h.
Arguments NewConnector {G} NewClient options.
Arguments Connect {G} c w.
Arguments Close {G} c w.
Arguments OpenConnector {G} NewClient dsn.
Arguments Open {G} NewClient dsn w.

(** ** Wire value decoder *)

Module Decoder.

(** Modelled from the spec: the declared remote types of §4.5; [OTHER] is
    any type absent from the table. *)
Inductive RemoteType : Type :=
  | TINYINT | SMALLINT | INT | BIGINT | INTERVAL
  | FLOAT | DOUBLE
  | BOOLEAN
  | CHAR | VARCHAR | STRING
  | DATE | TIME | TIMESTAMP
  | BINARY | VARBINARY
  | ROW | MAP | ARRAY | MULTISET
  | OTHER (name : string).

Inductive TypeFamily : Type :=
  | FInteger | FFloat | FBoolean | FCharacter | FTemporal
  | FBinary | FStructured | FUnrecognized.

Definition family (t : RemoteType) : TypeFamily :=
  match t with
  | TINYINT | SMALLINT | INT | BIGINT | INTERVAL => FInteger
  | FLOAT | DOUBLE => FFloat
  | BOOLEAN => FBoolean
  | CHAR | VARCHAR | STRING => FCharacter
  | DATE | TIME | TIMESTAMP => FTemporal
  | BINARY | VARBINARY => FBinary
  | ROW | MAP | ARRAY | MULTISET => FStructured
  | OTHER _ => FUnrecognized
  end.

Record ColumnMeta : Type := mkColumnMeta {
  name : string;
  remoteType : RemoteType;
  nullable : bool
}.

(** Modelled from the spec: a wire-format cell is a textual or numeric
    literal, a structured or binary payload, or the null marker.  A
    floating-point or temporal literal is kept as its text. *)
Inductive WireValue : Type :=
  | WNull
  | WInteger (z : Z)
  | WFloat (literal : string)
  | WBool (b : bool)
  | WText (s : string)
  | WPayload (bytes : list Byte.byte).

Definition RawRow : Type := list WireValue.

(** Modelled from the spec: the closed set of decoded values. *)
Inductive DecodedValue : Type :=
  | VInt64 (z : Z)
  | VFloat64 (literal : string)
  | VBool (b : bool)
  | VString (s : string)
  | VBytes (bytes : list Byte.byte)
  | VTimestamp (literal : string)
  | VAbsent.

Inductive DecodeCause : Type :=
  | NullInNonNullable
  | UnrecognizedType
  | Int64Overflow
  | Mismatch.

Record DecodeError : Type := mkDecodeError {
  errColumn : string;
  errRemoteType : RemoteType;
  errCause : DecodeCause
}.

Definition fits_int64 (z : Z) : bool :=
  ((- 2 ^ 63 <=? z) && (z <? 2 ^ 63))%Z.

(** Modelled from the spec: [(cellValue, ColumnMeta) → DecodedValue], the
    null rule first, then the declared-type table of §4.5. *)
Definition decode (cell : WireValue) (col : ColumnMeta)
  : DecodedValue + DecodeError :=
  let fail cause := inr (mkDecodeError (name col) (remoteType col) cause) in
  match cell with
  | WNull => if nullable col then inl VAbsent else fail NullInNonNullable
  | _ =>
      match family (remoteType col), cell with
      | FUnrecognized, _ => fail UnrecognizedType
      | FInteger, WInteger z =>
          if fits_int64 z then inl (VInt64 z) else fail Int64Overflow
      | FFloat, WFloat l => inl (VFloat64 l)
      | FBoolean, WBool b => inl (VBool b)
      | FCharacter, WText s => inl (VString s)
      | FTemporal, WText s => inl (VTimestamp s)
      | FBinary, WPayload b => inl (VBytes b)
      | FStructured, WPayload b => inl (VBytes b)
      | _, _ => fail Mismatch
      end
  end.

End Decoder.

(** ** Operation poller *)

Module Poller.

Inductive Status : Type := PENDING | RUNNING | FINISHED | ERROR | CANCELED.

Record Operation : Type := mkOperation {
  handle : string;
  opSessionHandle : string;
  status : Status;
  errorMessage : option string
}.

Definition terminal (s : Status) : bool :=
  match s with
  | PENDING | RUNNING => false
  | FINISHED | ERROR | CANCELED => true
  end.

(** How the caller's context ended, when it did. *)
Inductive ContextError : Type := Canceled | DeadlineExceeded.

Inductive PollResult : Type :=
  | Success
  | OperationFailed (message : string)
  | OperationCanceled
  | ContextDone (why : ContextError)
  | StatusCallFailed (e : error).

(** The surroundings of one polling run: the gateway's answer to the
    [n]-th status call (a pure read) and the state of the caller's
    context just before that call. *)
Record Surroundings : Type := mkSurroundings {
  getOperationStatus : nat → result Operation;
  contextErr : nat → option ContextError
}.

Record Run : Type := mkRun {
  outcome : PollResult;
  observed : list Operation;
  cancelIssued : bool
}.

Definition observe (op : Operation) (r : Run) : Run :=
  {| outcome := outcome r;
     observed := op :: observed r;
     cancelIssued := cancelIssued r |}.

Definition message (op : Operation) : string :=
  default EmptyString (errorMessage op).

(** Modelled from the spec: the poller of §4.2.  Round [n] checks the
    caller's context, asks for the status and either terminates or waits
    and goes on to round [n + 1].  [fuel] bounds the number of rounds;
    [None] means the bound was reached while the operation was still
    pending or running. *)
Fixpoint poll (env : Surroundings) (fuel n : nat) : option Run :=
  match fuel with
  | 0 => None
  | S fuel' =>
      match contextErr env n with
      | Some why =>
          Some {| outcome := ContextDone why; observed := [];
                  cancelIssued := true |}
      | None =>
          match getOperationStatus env n with
          | Err e =>
              Some {| outcome := StatusCallFailed e; observed := [];
                      cancelIssued := false |}
          | Ok op =>
              match status op with
              | FINISHED =>
                  Some {| outcome := Success; observed := [op];
                          cancelIssued := false |}
              | ERROR =>
                  Some {| outcome := OperationFailed (message op);
                          observed := [op]; cancelIssued := false |}
              | CANCELED =>
                  Some {| outcome := OperationCanceled; observed := [op];
                          cancelIssued := false |}
              | PENDING | RUNNING => observe op <$> poll env fuel' (S n)
              end
          end
      end
  end.

(** The status the run saw last, if it saw any. *)
Definition lastStatus (r : Run) : option Status := status <$> last (observed r).

(** The result a terminal status stands for. *)
Definition verdict (op : Operation) : option PollResult :=
  match status op with
  | FINISHED => Some Success
  | ERROR => Some (OperationFailed (message op))
  | CANCELED => Some OperationCanceled
  | PENDING | RUNNING => None
  end.

(** The run gave up: the caller's context ended or a status call failed. *)
Definition gaveUp (r : PollResult) : Prop :=
  match r with
  | ContextDone _ | StatusCallFailed _ => True
  | Success | OperationFailed _ | OperationCanceled => False
  end.

(** The gateway reports a pending or running operation on the calls
    before the [k]-th and the terminal operation [op] on the [k]-th, and
    the caller's context is live all along. *)
Definition settlesAt (env : Surroundings) (k : nat) (op : Operation) : Prop :=
  (∀ i, i < k →
     contextErr env i = None ∧
     ∃ op', getOperationStatus env i = Ok op' ∧ terminal (status op') = false) ∧
  contextErr env k = None ∧
  getOperationStatus env k = Ok op ∧
  terminal (status op) = true.

Definition failedOperation : Operation :=
  {| handle := "op-1"; opSessionHandle := "session-";
     status := ERROR; errorMessage := Some "table not found" |}.

(** A gateway that reports [RUNNING] twice and then [final]. *)
Definition scripted (final : Operation) : Surroundings :=
  {| getOperationStatus := λ n,
       if decide (n < 2) then
         Ok {| handle := handle final; opSessionHandle := opSessionHandle final;
               status := RUNNING; errorMessage := None |}
       else Ok final;
     contextErr := λ _, None |}.

End Poller.

(** ** Result pager *)

Module Pager.

Import Decoder.

Definition Token : Type := string.

Record ResultPage : Type := mkResultPage {
  columns : list ColumnMeta;
  rows : list RawRow;
  nextPageToken : option Token
}.

(** What the cursor has to fetch next. *)
Inductive Pending : Type :=
  | FirstPage
  | NextPage (token : Token)
  | NoMorePages
  | Aborted (e : error).

Record Cursor : Type := mkCursor {
  buffered : list RawRow;
  pending : Pending;
  fetched : list (option Token)
}.

Definition start : Cursor :=
  {| buffered := []; pending := FirstPage; fetched := [] |}.

(** The token a cursor with an empty buffer asks for next, if it asks. *)
Definition request (p : Pending) : option (option Token) :=
  match p with
  | FirstPage => Some None
  | NextPage t => Some (Some t)
  | NoMorePages | Aborted _ => None
  end.

Inductive Step : Type :=
  | Yield (row : RawRow)
  | Refilled
  | EndOfRows
  | Failed (e : error).

Section Pages.

(** [fetchResultPage(sessionHandle, operationHandle, token|none)] for one
    finished operation: pages are immutable once returned, so the answer
    depends on the token alone. *)
Variable fetchResultPage : option Token → result ResultPage.

Definition refill (cur : Cursor) (token : option Token) : Step * Cursor :=
  match fetchResultPage token with
  | Err e =>
      (Failed e,
       {| buffered := []; pending := Aborted e;
          fetched := fetched cur ++ [token] |})
  | Ok page =>
      (Refilled,
       {| buffered := rows page;
          pending := match nextPageToken page with
                     | Some t => NextPage t
                     | None => NoMorePages
                     end;
          fetched := fetched cur ++ [token] |})
  end.

(** Modelled from the spec: one move of the pager of §4.3 as the row
    cursor of §4.4 drives it.  A buffered row is handed out; an exhausted
    buffer is refilled from the page the pending token names, whether or
    not that page has rows; without a token the sequence ends. *)
Definition advance (cur : Cursor) : Step * Cursor :=
  match buffered cur with
  | row :: rest =>
      (Yield row,
       {| buffered := rest; pending := pending cur; fetched := fetched cur |})
  | [] =>
      match pending cur with
      | FirstPage => refill cur None
      | NextPage t => refill cur (Some t)
      | NoMorePages => (EndOfRows, cur)
      | Aborted e => (Failed e, cur)
      end
  end.

(** The rows the cursor hands out until it ends or fails, with the error
    that stopped it, if any.  [None]: [fuel] moves were not enough. *)
Fixpoint drain (fuel : nat) (cur : Cursor)
  : option (list RawRow * option error * Cursor) :=
  match fuel with
  | 0 => None
  | S fuel' =>
      match advance cur with
      | (Yield row, cur') =>
          match drain fuel' cur' with
          | Some (rs, e, final) => Some (row :: rs, e, final)
          | None => None
          end
      | (Refilled, cur') => drain fuel' cur'
      | (EndOfRows, cur') => Some ([], None, cur')
      | (Failed e, cur') => Some ([], Some e, cur')
      end
  end.

(** [Chain token pages]: fetching from [token] and following the
    next-page tokens visits exactly [pages], of which only the last has
    no next-page token.  [ChainTokens] are the tokens of those fetches. *)
Inductive Chain : option Token → list ResultPage → Prop :=
  | Chain_last token page :
      fetchResultPage token = Ok page →
      nextPageToken page = None →
      Chain token [page]
  | Chain_next token page next pages :
      fetchResultPage token = Ok page →
      nextPageToken page = Some next →
      Chain (Some next) pages →
      Chain token (page :: pages).

End Pages.

Definition allRows (pages : list ResultPage) : list RawRow :=
  concat (rows <$> pages).

(** Three pages for examples; the second has no rows but has a token. *)
Definition idColumn : ColumnMeta :=
  {| name := "id"; remoteType := INT; nullable := false |}.

Definition page1 : ResultPage :=
  {| columns := [idColumn];
     rows := [[WInteger 1]; [WInteger 2]];
     nextPageToken := Some "t1" |}.

Definition page2 : ResultPage :=
  {| columns := [idColumn]; rows := []; nextPageToken := Some "t2" |}.

Definition page3 : ResultPage :=
  {| columns := [idColumn]; rows := [[WInteger 3]]; nextPageToken := None |}.

Definition threePages (token : option Token) : result ResultPage :=
  match token with
  | None => Ok page1
  | Some t =>
      if decide (t = "t1") then Ok page2
      else if decide (t = "t2") then Ok page3
      else Err (errorString "unknown token")
  end.

(** The tokens with which the pages after the first are requested. *)
Fixpoint laterTokens (pages : list ResultPage) : list (option Token) :=
  match pages with
  | [] => []
  | [_] => []
  | page :: rest => nextPageToken page :: laterTokens rest
  end.

End Pager.

(** ** Connection strings *)

(** The connection string [url?k1=v1&k2=v2...] written from its parts,
    and the property map it denotes: pairs are applied from left to
    right, so a repeated key keeps its last value. *)
Definition pairText (kv : string * string) : string :=
  kv.1 +:+ String "="%char kv.2.

Definition queryText (kvs : list (string * string)) : string :=
  Join (pairText <$> kvs) "&"%char.

Definition dsnText (url : string) (kvs : list (string * string)) : string :=
  url +:+ String "?"%char (queryText kvs).

Definition assignAll (kvs : list (string * string)) (acc : Properties) : Properties :=
  foldl (λ m kv, <[kv.1:=kv.2]> m) acc kvs.

Definition propertiesOf (kvs : list (string * string)) : Properties :=
  assignAll kvs ∅.

(** A key is not empty and holds neither [&] nor [=]; a value holds no
    [&]. *)
Definition wellFormedPair (kv : string * string) : Prop :=
  kv.1 ≠ EmptyString ∧
  contains "&"%char kv.1 = false ∧
  contains "="%char kv.1 = false ∧
  contains "&"%char kv.2 = false.

(** The configuration error of the driver: the DSN's properties were
    rejected. *)
Definition ConfigError (e : error) : Prop :=
  ∃ cause, e = wrapError "flink: invalid DSN properties: " cause.

(** ** Gateways for examples *)

Fixpoint tally (n : nat) : string :=
  match n with
  | 0 => EmptyString
  | S n' => String "i"%char (tally n')
  end.

Definition handleOf (n : nat) : string := "session-" +:+ tally n.

(** A gateway that refuses the first [failuresLeft] requests for a
    session, then hands out the handles [session-], [session-i],
    [session-ii], ...; closing a session fails when [closeFails]. *)
Record Scripted : Type := mkScripted {
  failuresLeft : nat;
  opened : nat;
  closeFails : bool
}.

Definition scriptedClient : GatewayClient Scripted :=
  {| OpenSession := λ _ g,
       match failuresLeft g with
       | S k =>
           ((EmptyString, Some (errorString "gateway unavailable")),
            {| failuresLeft := k; opened := opened g; closeFails := closeFails g |})
       | 0 =>
           ((handleOf (opened g), None),
            {| failuresLeft := 0; opened := S (opened g);
               closeFails := closeFails g |})
       end;
     CloseSession := λ _ g,
       (if closeFails g then Some (errorString "session not found") else None, g) |}.

Definition scriptedNewClient (_ : string) (_ : HttpClient) (_ : string)
  : result (GatewayClient Scripted) := Ok scriptedClient.

(** A gateway whose every answer to [OpenSession] is the empty handle
    with a nil error. *)
Definition blankClient : GatewayClient unit :=
  {| OpenSession := λ _ g, ((EmptyString, None), g);
     CloseSession := λ _ g, (None, g) |}.

(** A gateway whose every answer to [OpenSession] is an error together
    with a handle that is not empty. *)
Definition staleClient : GatewayClient unit :=
  {| OpenSession := λ _ g, (("stale", Some (errorString "gateway unavailable")), g);
     CloseSession := λ _ g, (None, g) |}.

Definition freshWorld {G : Type} (g : G) : World G := {| gateway := g; calls := [] |}.

Definition freshConnector {G : Type} (cl : GatewayClient G) : connector G :=
  {| client := cl;
     sessionHandle := EmptyString;
     config := WithDefaults;
     properties := Some ∅ |}.

(** A client follows the handle convention when the handle it returns is
    empty exactly when the call failed. *)
Definition handlesMarkSuccess {G : Type} (cl : GatewayClient G) : Prop :=
  ∀ req g h err g',
    OpenSession cl req g = ((h, err), g') →
    (err = None → h ≠ EmptyString) ∧ (err ≠ None → h = EmptyString).

(** The connector [OpenConnector] builds for the gateway URL [url] and
    the properties [props], once [NewClient] has produced [cl]. *)
Definition connectorFor {G : Type} (cl : GatewayClient G) (url : string) (props : Properties)
  : connector G :=
  {| client := cl;
     sessionHandle := EmptyString;
     config := {| GatewayURL := url;
                  Client := DefaultClient;
                  APIVersion := "v3";
                  cfgProperties := Some props |};
     properties := Some props |}.

(** The request [Connect] sends for a connector. *)
Definition openRequest {G : Type} (c : connector G) : GatewayCall :=
  CallOpenSession {| reqProperties := properties c |}.

(** The connection [Connect] hands out for a connector that holds a
    session handle. *)
Definition connOf {G : Type} (c : connector G) : flinkConn G :=
  {| connClient := client c; connSessionHandle := sessionHandle c |}.

(** ** Callers of the connector and of the option builders *)

(** What a caller such as [database/sql] does with one connector: it
    asks for connections and, at teardown, closes it. *)
Inductive ConnectorCall : Type := DoConnect | DoClose.

Inductive Outcome (G : Type) : Type :=
  | Connected (r : result (flinkConn G))
  | Closed (err : option error).
Arguments Connected {G} r.
Arguments Closed {G} err.

(** The calls [ops] made one after the other on a connector, each on the
    connector and the gateway the previous one left. *)
Fixpoint run {G : Type} (ops : list ConnectorCall) (c : connector G) (w : World G)
  : list (Outcome G) * connector G * World G :=
  match ops with
  | [] => ([], c, w)
  | DoConnect :: rest =>
      let '(r, c1, w1) := Connect c w in
      let '(outs, c2, w2) := run rest c1 w1 in
      (Connected r :: outs, c2, w2)
  | DoClose :: rest =>
      let '(e, c1, w1) := Close c w in
      let '(outs, c2, w2) := run rest c1 w1 in
      (Closed e :: outs, c2, w2)
  end.

(** What each call returns on a connector that holds a session handle. *)
Definition outcomeWithSession {G : Type} (c : connector G) (op : ConnectorCall)
  : Outcome G :=
  match op with
  | DoConnect => Connected (Ok (connOf c))
  | DoClose => Closed None
  end.

Definition isClose (op : ConnectorCall) : bool :=
  match op with DoClose => true | DoConnect => false end.

Definition isOpenSession (call : GatewayCall) : bool :=
  match call with CallOpenSession _ => true | CallCloseSession _ => false end.

Definition connectFailed {G : Type} (o : Outcome G) : bool :=
  match o with Connected (Err _) => true | _ => false end.

Definition connectSucceeded {G : Type} (o : Outcome G) : bool :=
  match o with Connected (Ok _) => true | _ => false end.

Definition count {A : Type} (f : A → bool) (l : list A) : nat :=
  length (filter (λ x, f x = true) l).
Arguments count : simpl never.

(** The four option builders of [connector.go], as data. *)
Inductive OptionSpec : Type :=
  | SetGatewayURL (gatewayUrl : string)
  | SetClient (client : HttpClient)
  | SetAPIVersion (apiVersion : string)
  | SetProperties (properties : option Properties).

Definition build (o : OptionSpec) : ConnOption :=
  match o with
  | SetGatewayURL u => WithGatewayURL u
  | SetClient h => WithClient h
  | SetAPIVersion v => WithAPIVersion v
  | SetProperties p => WithProperties p
  end.

Inductive ConfigField : Type :=
  | FieldGatewayURL | FieldClient | FieldAPIVersion | FieldProperties.

#[global] Instance ConfigField_eq_dec : EqDecision ConfigField.
Proof. solve_decision. Defined.

Definition fieldOf (o : OptionSpec) : ConfigField :=
  match o with
  | SetGatewayURL _ => FieldGatewayURL
  | SetClient _ => FieldClient
  | SetAPIVersion _ => FieldAPIVersion
  | SetProperties _ => FieldProperties
  end.

(** What a list of options asks for, field by field, read from the
    options alone: for the gateway URL, the HTTP client and the API
    version, the value of the last option of that kind, and the value
    [start] when there is none; for the properties, the maps of the
    [WithProperties] options laid over [start], later maps on top.
    Options of another kind play no part in a field. *)
Definition requestedURL (start : string) (opts : list OptionSpec) : string :=
  foldl (λ acc o, match o with SetGatewayURL u => u | _ => acc end) start opts.

Definition requestedClient (start : HttpClient) (opts : list OptionSpec)
  : HttpClient :=
  foldl (λ acc o, match o with SetClient h => h | _ => acc end) start opts.

Definition requestedAPIVersion (start : string) (opts : list OptionSpec) : string :=
  foldl (λ acc o, match o with SetAPIVersion v => v | _ => acc end) start opts.

Definition requestedProperties (start : Properties) (opts : list OptionSpec)
  : Properties :=
  foldl (λ acc o, match o with SetProperties p => entries p ∪ acc | _ => acc end)
    start opts.

(** The configuration the options ask for, over the defaults of
    [WithDefaults]. *)
Definition requestedConfig (opts : list OptionSpec) : ConnConfig :=
  {| GatewayURL := requestedURL "http://localhost:8081" opts;
     Client := requestedClient DefaultClient opts;
     APIVersion := requestedAPIVersion "v3" opts;
     cfgProperties := Some (requestedProperties ∅ opts) |}.

(** * Properties *)

(** ** Strings *)

Lemma Cut_absent (s : string) (sep : ascii) :
  contains sep s = false → Cut s sep = (s, EmptyString, false).
Proof.
  induction s as [|c s IH]; simpl; [done|].
  intros [Hc Hs]%orb_false_elim.
  rewrite Hc, (IH Hs). done.
Qed.

Lemma Cut_present (a b : string) (sep : ascii) :
  contains sep a = false → Cut (a +:+ String sep b) sep = (a, b, true).
Proof.
  induction a as [|c a IH]; simpl.
  - intros _. by rewrite Ascii.eqb_refl.
  - intros [Hc Ha]%orb_false_elim.
    rewrite Hc, (IH Ha). done.
Qed.

Lemma Cut_found_contains (s before after : string) (sep : ascii) :
  Cut s sep = (before, after, true) → contains sep s = true.
Proof.
  revert before. induction s as [|c s IH]; simpl; intros before; [done|].
  destruct (Ascii.eqb c sep); [done|].
  destruct (Cut s sep) as [[b a] f] eqn:E.
  intros [= ? ? ?]; subst. simpl. eapply IH. reflexivity.
Qed.

Lemma Split_nonempty (s : string) (sep : ascii) : Split s sep ≠ [].
Proof.
  induction s as [|c s IH]; simpl; [done|].
  destruct (Ascii.eqb c sep); [done|].
  by destruct (Split s sep).
Qed.

Lemma Split_absent (s : string) (sep : ascii) :
  contains sep s = false → Split s sep = [s].
Proof.
  induction s as [|c s IH]; simpl; [done|].
  intros [Hc Hs]%orb_false_elim.
  by rewrite Hc, (IH Hs).
Qed.

Lemma Split_present (a b : string) (sep : ascii) :
  contains sep a = false → Split (a +:+ String sep b) sep = a :: Split b sep.
Proof.
  induction a as [|c a IH]; simpl.
  - intros _. by rewrite Ascii.eqb_refl.
  - intros [Hc Ha]%orb_false_elim.
    by rewrite Hc, (IH Ha).
Qed.

(** Splitting undoes joining, provided no piece contains the separator. *)
Lemma Split_Join (pieces : list string) (sep : ascii) :
  pieces ≠ [] →
  Forall (λ p, contains sep p = false) pieces →
  Split (Join pieces sep) sep = pieces.
Proof.
  induction pieces as [|p rest IH]; [done|].
  intros _ Hall. apply Forall_cons in Hall as [Hp Hrest].
  destruct rest as [|q rest].
  - simpl. by apply Split_absent.
  - change (Join (p :: q :: rest) sep)
      with (p +:+ String sep (Join (q :: rest) sep)).
    rewrite Split_present by done.
    by rewrite IH.
Qed.

Lemma contains_app (c : ascii) (a b : string) :
  contains c (a +:+ b) = contains c a || contains c b.
Proof.
  induction a as [|c' a IH]; simpl; [done|].
  by rewrite IH, orb_assoc.
Qed.

(** ** Property maps *)

(** Ranging over [src] and assigning into [dst] leaves [src]'s entries on
    top of [dst]'s, whatever the order of the visit. *)
Lemma rangeAssign_union (src dst : Properties) : rangeAssign src dst = src ∪ dst.
Proof.
  unfold rangeAssign.
  apply (map_fold_weak_ind (λ r m, r = m ∪ dst)).
  - by rewrite (left_id_L ∅ (∪)).
  - intros k v m r _ ->. by rewrite insert_union_l.
Qed.

Lemma rangeAssign_empty_r (src : Properties) : rangeAssign src ∅ = src.
Proof. by rewrite rangeAssign_union, (right_id_L ∅ (∪)). Qed.

Lemma rangeAssign_empty_l (dst : Properties) : rangeAssign ∅ dst = dst.
Proof. by rewrite rangeAssign_union, (left_id_L ∅ (∪)). Qed.

Lemma parsePairs_pairs (kvs : list (string * string)) (acc : Properties) :
  Forall wellFormedPair kvs →
  parsePairs (pairText <$> kvs) acc = Ok (assignAll kvs acc).
Proof.
  revert acc. induction kvs as [|[k v] kvs IH]; intros acc Hall; [done|].
  apply Forall_cons in Hall as [(_ & _ & Heq & _) Hrest].
  simpl in *. unfold pairText at 1. simpl.
  rewrite Cut_present by done.
  by apply IH.
Qed.

Lemma parsePairs_bad_piece (pieces : list string) (piece : string) (acc : Properties) :
  piece ∈ pieces →
  contains "="%char piece = false →
  ∃ cause, parsePairs pieces acc = Err cause.
Proof.
  intros Hin Hbad. revert acc.
  induction pieces as [|p rest IH]; intros acc.
  - by apply elem_of_nil in Hin.
  - simpl. destruct (Cut p "="%char) as [[k v] found] eqn:E.
    destruct found.
    + apply elem_of_cons in Hin as [->|Hin].
      * apply Cut_found_contains in E. congruence.
      * by apply IH.
    + eauto.
Qed.

Lemma pairText_no_amp (kv : string * string) :
  wellFormedPair kv → contains "&"%char (pairText kv) = false.
Proof.
  intros (_ & Hk & _ & Hv). unfold pairText.
  rewrite contains_app. simpl. by rewrite Hk, Hv.
Qed.

Lemma queryText_nonempty (kv : string * string) (kvs : list (string * string)) :
  queryText (kv :: kvs) ≠ EmptyString.
Proof.
  unfold queryText. destruct kv as [k v], kvs as [|kv' kvs]; simpl;
    unfold pairText; simpl; by destruct k.
Qed.

Lemma parseURIParameters_queryText (kvs : list (string * string)) :
  kvs ≠ [] →
  Forall wellFormedPair kvs →
  parseURIParameters (queryText kvs) = Ok (propertiesOf kvs).
Proof.
  intros Hne Hall. unfold parseURIParameters, queryText.
  rewrite Split_Join.
  - by apply parsePairs_pairs.
  - by destruct kvs.
  - apply Forall_fmap. eapply Forall_impl; [done|]. apply pairText_no_amp.
Qed.

Lemma assignAll_snoc (kvs : list (string * string)) (kv : string * string) (acc : Properties) :
  assignAll (kvs ++ [kv]) acc = <[kv.1:=kv.2]> (assignAll kvs acc).
Proof. unfold assignAll. by rewrite foldl_app. Qed.

Lemma propertiesOf_size (kvs : list (string * string)) :
  kvs ≠ [] → size (propertiesOf kvs) ≠ 0.
Proof.
  intros Hne. destruct kvs as [|kv kvs _] using rev_ind; [done|].
  unfold propertiesOf. rewrite assignAll_snoc.
  intros Hsz%map_size_empty_inv.
  by apply insert_non_empty in Hsz.
Qed.

(** ** The driver: connection strings *)

Section DriverProperties.

Context {G : Type}.
Variable NewClient : string → HttpClient → string → result (GatewayClient G).

Lemma mergeProperties_plain_url (url : string) (explicit : option Properties) :
  contains "?"%char url = false →
  mergeProperties url explicit = Ok (entries explicit).
Proof. intros Hurl. unfold mergeProperties. by rewrite Cut_absent. Qed.

Lemma OpenConnector_dsnText (url : string) (kvs : list (string * string)) :
  contains "?"%char url = false →
  Forall wellFormedPair kvs →
  OpenConnector NewClient (dsnText url kvs) =
    match NewClient url DefaultClient "v3" with
    | Ok cl => Ok (connectorFor cl url (propertiesOf kvs))
    | Err e => Err (wrapError "flink: error while creating flink client: " e)
    end.
Proof.
  intros Hurl Hall. unfold OpenConnector, dsnText.
  rewrite Cut_present by done.
  destruct kvs as [|kv kvs].
  - simpl. rewrite map_size_empty, decide_False by auto.
    unfold NewConnector. simpl.
    rewrite mergeProperties_plain_url by done. simpl.
    by destruct (NewClient url DefaultClient "v3").
  - rewrite decide_True by apply queryText_nonempty.
    rewrite parseURIParameters_queryText by done.
    set (props := propertiesOf (kv :: kvs)).
    rewrite decide_True by by apply propertiesOf_size.
    unfold NewConnector. simpl.
    rewrite mergeProperties_plain_url by done. simpl.
    rewrite rangeAssign_empty_r.
    destruct (NewClient url DefaultClient "v3"); [|done].
    unfold connectorFor, WithProperties. simpl.
    by rewrite rangeAssign_empty_r.
Qed.

Lemma OpenConnector_bad_piece (dsn base rawQuery piece : string) :
  Cut dsn "?"%char = (base, rawQuery, true) →
  piece ∈ Split rawQuery "&"%char →
  piece ≠ EmptyString →
  contains "="%char piece = false →
  ∃ e, OpenConnector NewClient dsn = Err e ∧ ConfigError e.
Proof.
  intros Hcut Hin Hne Hbad. unfold OpenConnector. rewrite Hcut.
  assert (rawQuery ≠ EmptyString) as Hraw.
  { intros ->. simpl in Hin. apply list_elem_of_singleton in Hin. done. }
  rewrite decide_True by done.
  unfold parseURIParameters.
  destruct (parsePairs_bad_piece _ _ ∅ Hin Hbad) as [cause ->].
  eexists. split; [done|]. by exists cause.
Qed.

(** C2.  A connection string [url?k1=v1&k2=v2...] whose URL holds no [?],
    whose keys hold neither [&] nor [=] and whose values hold no [&]
    yields the connector with gateway URL [url] and the properties
    [{k1:v1, k2:v2, ...}], unless [NewClient] refuses the URL; and a
    connection string whose query has a non-empty piece without [=]
    fails with a configuration error. *)
Theorem OpenConnector_parses_connection_string
    (url : string) (kvs : list (string * string))
    (dsn base rawQuery piece : string) :
  (contains "?"%char url = false →
   Forall wellFormedPair kvs →
   OpenConnector NewClient (dsnText url kvs) =
     match NewClient url DefaultClient "v3" with
     | Ok cl => Ok (connectorFor cl url (propertiesOf kvs))
     | Err e => Err (wrapError "flink: error while creating flink client: " e)
     end) ∧
  (Cut dsn "?"%char = (base, rawQuery, true) →
   piece ∈ Split rawQuery "&"%char →
   piece ≠ EmptyString →
   contains "="%char piece = false →
   ∃ e, OpenConnector NewClient dsn = Err e ∧ ConfigError e).
Proof.
  split.
  - apply OpenConnector_dsnText.
  - apply OpenConnector_bad_piece.
Qed.

(** ** The connector: sessions *)

Lemma Connect_with_session (c : connector G) (w : World G) :
  sessionHandle c ≠ EmptyString → Connect c w = (Ok (connOf c), c, w).
Proof. intros Hh. unfold Connect. by rewrite decide_False. Qed.

Lemma Connect_without_session (c : connector G) (w : World G) :
  sessionHandle c = EmptyString →
  Connect c w =
    let '((h, err), g') :=
      OpenSession (client c) {| reqProperties := properties c |} (gateway w) in
    let w' := {| gateway := g'; calls := calls w ++ [openRequest c] |} in
    let c' := setSessionHandle c h in
    match err with
    | Some e => (Err (wrapError "flink: failed to open session: " e), c', w')
    | None => (Ok (connOf c'), c', w')
    end.
Proof. intros Hh. unfold Connect. by rewrite decide_True. Qed.

(** C1 (as amended).  For a connector whose client follows the handle
    convention and which holds no session handle: a [Connect] that fails
    has issued one [OpenSession] and leaves the connector without a
    handle; a [Connect] that succeeds has issued exactly one
    [OpenSession], binds the connection to the handle it stored, and from
    then on every [Connect], in whatever state the gateway is, returns a
    connection bound to that same handle and issues no gateway call. *)
Theorem Connect_opens_session_once
    (c c' : connector G) (w w' : World G) (r : result (flinkConn G)) :
  handlesMarkSuccess (client c) →
  sessionHandle c = EmptyString →
  Connect c w = (r, c', w') →
  calls w' = calls w ++ [openRequest c] ∧
  match r with
  | Err _ => sessionHandle c' = EmptyString
  | Ok conn =>
      sessionHandle c' ≠ EmptyString ∧
      conn = connOf c' ∧
      ∀ w2 : World G, Connect c' w2 = (Ok conn, c', w2)
  end.
Proof.
  intros Hconv Hnone Hconnect.
  rewrite Connect_without_session in Hconnect by done.
  destruct (OpenSession (client c) _ (gateway w)) as [[h err] g'] eqn:Hopen.
  apply Hconv in Hopen as [Hok Hfail].
  destruct err as [e|]; cbv zeta in Hconnect; simplify_eq; simpl.
  - split; [done|]. by apply Hfail.
  - split; [done|]. split; [by apply Hok|]. split; [done|].
    intros w2. apply Connect_with_session. simpl. by apply Hok.
Qed.

(** C3 (as amended).  [Close] returns nil, leaves the connector as it was
    and, when the connector holds a handle, issues one [CloseSession] for
    it; a later [Connect] then issues no gateway call and returns a
    connection bound to that same handle, and a later [Close] issues
    [CloseSession] for it again. *)
Theorem Close_keeps_session_handle (c : connector G) (w : World G) :
  sessionHandle c ≠ EmptyString →
  ∃ w' : World G,
    Close c w = (None, c, w') ∧
    calls w' = calls w ++ [CallCloseSession (sessionHandle c)] ∧
    Connect c w' = (Ok (connOf c), c, w') ∧
    ∃ w'' : World G,
      Close c w' = (None, c, w'') ∧
      calls w'' = calls w' ++ [CallCloseSession (sessionHandle c)].
Proof.
  intros Hh. unfold Close. rewrite !decide_True by done.
  destruct (CloseSession (client c) (sessionHandle c) (gateway w)) as [e g'].
  exists {| gateway := g';
            calls := calls w ++ [CallCloseSession (sessionHandle c)] |}.
  split; [done|]. split; [done|].
  split; [by apply Connect_with_session|]. simpl.
  destruct (CloseSession (client c) (sessionHandle c) g') as [e' g''].
  eexists. rewrite decide_True by done. split; done.
Qed.

(** C8.  [Close] returns nil for every connector and every gateway,
    whatever [CloseSession] answers; the only call it can issue is one
    [CloseSession]; and for a connector without a session handle, such as
    one [NewConnector] has just built, it issues no call and leaves the
    gateway untouched. *)
Theorem Close_returns_nil
    (c : connector G) (w : World G) (options : list ConnOption) :
  (Close c w).1.1 = None ∧
  (Close c w).1.2 = c ∧
  (calls (Close c w).2 = calls w ∨
   calls (Close c w).2 = calls w ++ [CallCloseSession (sessionHandle c)]) ∧
  (sessionHandle c = EmptyString → Close c w = (None, c, w)) ∧
  (NewConnector NewClient options = Ok c → Close c w = (None, c, w)).
Proof.
  assert (sessionHandle c = EmptyString → Close c w = (None, c, w)) as Hnone.
  { intros Hh. unfold Close. by rewrite decide_False by auto. }
  split_and!; try done.
  - unfold Close. case_decide; [|done].
    by destruct (CloseSession _ _ _).
  - unfold Close. case_decide; [|done].
    by destruct (CloseSession _ _ _).
  - unfold Close. case_decide; [|by left].
    destruct (CloseSession _ _ _). by right.
  - intros Hnew. apply Hnone. unfold NewConnector in Hnew.
    repeat case_match; simplify_eq. done.
Qed.

End DriverProperties.

(** ** Configuration: defaults, options and property merging *)

Section ConfigurationProperties.

Context {G : Type}.
Variable NewClient : string → HttpClient → string → result (GatewayClient G).

Lemma applyOptions_build (opts : list OptionSpec)
    (u : string) (h : HttpClient) (v : string) (m : Properties) :
  applyOptions (build <$> opts)
    {| GatewayURL := u; Client := h; APIVersion := v; cfgProperties := Some m |} =
  {| GatewayURL := requestedURL u opts;
     Client := requestedClient h opts;
     APIVersion := requestedAPIVersion v opts;
     cfgProperties := Some (requestedProperties m opts) |}.
Proof.
  revert u h v m. induction opts as [|o opts IH]; intros u h v m; [done|].
  rewrite fmap_cons.
  change (applyOptions (build o :: (build <$> opts)) ?c)
    with (applyOptions (build <$> opts) (build o c)).
  destruct o as [u'|h'|v'|p].
  - apply (IH u' h v m).
  - apply (IH u h' v m).
  - apply (IH u h v' m).
  - cbn [build]. unfold WithProperties. cbn [GatewayURL Client APIVersion cfgProperties].
    rewrite rangeAssign_union. apply (IH u h v (entries p ∪ m)).
Qed.

Lemma NewConnector_requested (opts : list OptionSpec) :
  NewConnector NewClient (build <$> opts) =
    match mergeProperties (GatewayURL (requestedConfig opts))
            (cfgProperties (requestedConfig opts)) with
    | Err e =>
        Err (wrapError "flink: error while merging connector properties: " e)
    | Ok merged =>
        match NewClient (GatewayURL (requestedConfig opts))
                (Client (requestedConfig opts))
                (APIVersion (requestedConfig opts)) with
        | Err e => Err (wrapError "flink: error while creating flink client: " e)
        | Ok cl =>
            Ok {| client := cl;
                  sessionHandle := EmptyString;
                  config := requestedConfig opts;
                  properties := Some merged |}
        end
    end.
Proof.
  unfold NewConnector. cbv zeta.
  change WithDefaults
    with {| GatewayURL := "http://localhost:8081"; Client := DefaultClient;
            APIVersion := "v3"; cfgProperties := Some (∅ : Properties) |}.
  by rewrite applyOptions_build.
Qed.

(** C10.  Without options [NewConnector] hands the defaults
    ([http://localhost:8081], [http.DefaultClient], [v3], no properties)
    to [NewClient] and builds the connector from them.  With options, the
    connector [NewConnector] builds is configured, field by field, with
    what the options of that field's kind ask for and with the default
    where there is none: an option changes its own field and no other.
    So a single [WithClient], [WithAPIVersion] or [WithProperties] gives
    the defaults with that one field replaced, and so does a single
    [WithGatewayURL] whenever a connector is built.  Each builder, on any
    configuration, replaces its own field and keeps the other three. *)
Theorem NewConnector_defaults_and_options
    (opts : list OptionSpec)
    (cfg : ConnConfig) (url version : string) (httpClient : HttpClient)
    (props : option Properties) :
  NewConnector NewClient [] =
    match NewClient "http://localhost:8081" DefaultClient "v3" with
    | Ok cl =>
        Ok {| client := cl;
              sessionHandle := EmptyString;
              config := {| GatewayURL := "http://localhost:8081";
                           Client := DefaultClient;
                           APIVersion := "v3";
                           cfgProperties := Some ∅ |};
              properties := Some ∅ |}
    | Err e => Err (wrapError "flink: error while creating flink client: " e)
    end ∧
  NewConnector NewClient (build <$> opts) =
    match mergeProperties (GatewayURL (requestedConfig opts))
            (cfgProperties (requestedConfig opts)) with
    | Err e =>
        Err (wrapError "flink: error while merging connector properties: " e)
    | Ok merged =>
        match NewClient (GatewayURL (requestedConfig opts))
                (Client (requestedConfig opts))
                (APIVersion (requestedConfig opts)) with
        | Err e => Err (wrapError "flink: error while creating flink client: " e)
        | Ok cl =>
            Ok {| client := cl;
                  sessionHandle := EmptyString;
                  config := requestedConfig opts;
                  properties := Some merged |}
        end
    end ∧
  (∀ c, NewConnector NewClient [WithGatewayURL url] = Ok c →
        config c = {| GatewayURL := url; Client := DefaultClient;
                      APIVersion := "v3"; cfgProperties := Some ∅ |} ∧
        NewClient url DefaultClient "v3" = Ok (client c)) ∧
  NewConnector NewClient [WithClient httpClient] =
    match NewClient "http://localhost:8081" httpClient "v3" with
    | Ok cl =>
        Ok {| client := cl;
              sessionHandle := EmptyString;
              config := {| GatewayURL := "http://localhost:8081";
                           Client := httpClient;
                           APIVersion := "v3";
                           cfgProperties := Some ∅ |};
              properties := Some ∅ |}
    | Err e => Err (wrapError "flink: error while creating flink client: " e)
    end ∧
  NewConnector NewClient [WithAPIVersion version] =
    match NewClient "http://localhost:8081" DefaultClient version with
    | Ok cl =>
        Ok {| client := cl;
              sessionHandle := EmptyString;
              config := {| GatewayURL := "http://localhost:8081";
                           Client := DefaultClient;
                           APIVersion := version;
                           cfgProperties := Some ∅ |};
              properties := Some ∅ |}
    | Err e => Err (wrapError "flink: error while creating flink client: " e)
    end ∧
  NewConnector NewClient [WithProperties props] =
    match NewClient "http://localhost:8081" DefaultClient "v3" with
    | Ok cl =>
        Ok {| client := cl;
              sessionHandle := EmptyString;
              config := {| GatewayURL := "http://localhost:8081";
                           Client := DefaultClient;
                           APIVersion := "v3";
                           cfgProperties := Some (entries props) |};
              properties := Some (entries props) |}
    | Err e => Err (wrapError "flink: error while creating flink client: " e)
    end ∧
  WithGatewayURL url cfg =
    {| GatewayURL := url; Client := Client cfg;
       APIVersion := APIVersion cfg; cfgProperties := cfgProperties cfg |} ∧
  WithClient httpClient cfg =
    {| GatewayURL := GatewayURL cfg; Client := httpClient;
       APIVersion := APIVersion cfg; cfgProperties := cfgProperties cfg |} ∧
  WithAPIVersion version cfg =
    {| GatewayURL := GatewayURL cfg; Client := Client cfg;
       APIVersion := version; cfgProperties := cfgProperties cfg |} ∧
  WithProperties props WithDefaults =
    {| GatewayURL := "http://localhost:8081"; Client := DefaultClient;
       APIVersion := "v3"; cfgProperties := Some (entries props) |} ∧
  GatewayURL (WithProperties props cfg) = GatewayURL cfg ∧
  Client (WithProperties props cfg) = Client cfg ∧
  APIVersion (WithProperties props cfg) = APIVersion cfg.
Proof.
  assert (WithProperties props WithDefaults =
            {| GatewayURL := "http://localhost:8081"; Client := DefaultClient;
               APIVersion := "v3"; cfgProperties := Some (entries props) |})
    as Hprops.
  { unfold WithProperties, WithDefaults. simpl. by rewrite rangeAssign_empty_r. }
  split_and!; try done.
  - apply NewConnector_requested.
  - intros c.
    change [WithGatewayURL url] with (build <$> [SetGatewayURL url]).
    rewrite NewConnector_requested.
    unfold requestedConfig. simpl.
    destruct (mergeProperties url (Some ∅)) as [merged|]; [|done].
    destruct (NewClient url DefaultClient "v3") as [cl|]; [|done].
    by intros [= <-].
  - change [WithProperties props] with (build <$> [SetProperties props]).
    rewrite NewConnector_requested.
    unfold requestedConfig. cbn [requestedURL requestedClient requestedAPIVersion
      requestedProperties foldl GatewayURL Client APIVersion cfgProperties].
    rewrite (right_id_L ∅ (∪)), mergeProperties_plain_url by done.
    cbn [entries default].
    by destruct (NewClient "http://localhost:8081" DefaultClient "v3").
Qed.

End ConfigurationProperties.

Lemma WithProperties_lookup (cfg : ConnConfig) (p : Properties) (k : string) :
  entries (cfgProperties (WithProperties (Some p) cfg)) !! k =
    match p !! k with
    | Some v => Some v
    | None => entries (cfgProperties cfg) !! k
    end.
Proof.
  unfold WithProperties. simpl. rewrite rangeAssign_union.
  replace (match cfgProperties cfg with Some m => m | None => ∅ end)
    with (entries (cfgProperties cfg)) by by destruct (cfgProperties cfg).
  rewrite lookup_union. by destruct (p !! k), (entries (cfgProperties cfg) !! k).
Qed.

Lemma WithProperties_union (cfg : ConnConfig) (p : Properties) :
  WithProperties (Some p) cfg =
    {| GatewayURL := GatewayURL cfg; Client := Client cfg;
       APIVersion := APIVersion cfg;
       cfgProperties := Some (p ∪ entries (cfgProperties cfg)) |}.
Proof.
  unfold WithProperties. rewrite rangeAssign_union.
  by destruct (cfgProperties cfg).
Qed.

Lemma mergeProperties_explicit_wins
    (url : string) (explicit : option Properties) (merged : Properties)
    (k v : string) :
  mergeProperties url explicit = Ok merged →
  entries explicit !! k = Some v →
  merged !! k = Some v.
Proof.
  unfold mergeProperties. intros Hmerge Hk.
  destruct (Cut url "?"%char) as [[base rawQuery] found].
  destruct found; [|by simplify_eq].
  case_decide; [by simplify_eq|].
  destruct (parseURIParameters rawQuery) as [fromURL|]; [|done].
  simplify_eq. rewrite rangeAssign_union.
  by apply lookup_union_Some_l.
Qed.

(** C7.  Applying property maps one after the other is right-biased: a
    key of the map applied later has that map's value, so [{a:1}] then
    [{a:2}] yields [a:2]; two maps with disjoint key sets can be applied
    in either order; and in the properties [mergeProperties] computes
    from a gateway URL and the explicit properties, every explicit key
    has its explicit value, whatever the URL carries for it. *)
Theorem property_merge_is_right_biased
    (cfg : ConnConfig) (p1 p2 : Properties) (k v : string)
    (url : string) (explicit : option Properties) (merged : Properties) :
  (p2 !! k = Some v →
   entries (cfgProperties (WithProperties (Some p2) (WithProperties (Some p1) cfg))) !! k
     = Some v) ∧
  cfgProperties
    (WithProperties (Some {[ "a" := "2" ]})
       (WithProperties (Some {[ "a" := "1" ]}) WithDefaults))
    = Some {[ "a" := "2" ]} ∧
  (dom p1 ## dom p2 →
   WithProperties (Some p2) (WithProperties (Some p1) cfg) =
   WithProperties (Some p1) (WithProperties (Some p2) cfg)) ∧
  (mergeProperties url explicit = Ok merged →
   entries explicit !! k = Some v →
   merged !! k = Some v).
Proof.
  split_and!.
  - intros Hk. by rewrite WithProperties_lookup, Hk.
  - rewrite !WithProperties_union. reflexivity.
  - intros Hdisj. rewrite !WithProperties_union. simpl. f_equal. f_equal.
    rewrite !(assoc_L (∪)). f_equal.
    apply map_union_comm. by apply map_disjoint_dom.
  - apply mergeProperties_explicit_wins.
Qed.

(** ** The driver and the connector on concrete gateways *)

(** The connection strings of [driver_test.go]. *)
Example OpenConnector_test_ParsesProperties :
  OpenConnector scriptedNewClient "http://example.com:8083?opt1=val1&opt2=val2" =
    Ok (connectorFor scriptedClient "http://example.com:8083"
          (<["opt2":="val2"]> (<["opt1":="val1"]> ∅))).
Proof.
  change "http://example.com:8083?opt1=val1&opt2=val2"
    with (dsnText "http://example.com:8083" [("opt1", "val1"); ("opt2", "val2")]).
  rewrite OpenConnector_dsnText; [done | done | by repeat (apply Forall_cons; split; [by split_and!|])].
Qed.

Lemma OpenConnector_parses_connection_string_witness :
  OpenConnector scriptedNewClient "http://example.com:8083?opt1=val1&opt2=val2" =
    Ok (connectorFor scriptedClient "http://example.com:8083"
          (propertiesOf [("opt1", "val1"); ("opt2", "val2")])) ∧
  ∃ e, OpenConnector scriptedNewClient "http://example.com:8083?opt1" = Err e ∧
       ConfigError e.
Proof.
  pose proof (OpenConnector_parses_connection_string scriptedNewClient
                "http://example.com:8083" [("opt1", "val1"); ("opt2", "val2")]
                "http://example.com:8083?opt1" "http://example.com:8083"
                "opt1" "opt1") as [Hgood Hbad].
  split.
  - apply Hgood; [reflexivity | by repeat (apply Forall_cons; split; [by split_and!|])].
  - apply Hbad; [reflexivity | left | discriminate | reflexivity].
Defined.

(** C1, counterexample.  A client that answers [OpenSession] with the
    empty handle and a nil error: two [Connect] calls on one connector
    both succeed, and both open a session.  And a client that answers
    with an error next to a handle that is not empty: the first [Connect]
    fails, the second succeeds without opening a session. *)
Lemma Connect_empty_handle_opens_twice :
  let c0 := freshConnector blankClient in
  let first := Connect c0 (freshWorld tt) in
  let second := Connect first.1.2 first.2 in
  let d0 := freshConnector staleClient in
  let failed := Connect d0 (freshWorld tt) in
  let retried := Connect failed.1.2 failed.2 in
  (is_Ok first.1.1 = true ∧
   is_Ok second.1.1 = true ∧
   calls second.2 = [openRequest c0; openRequest c0]) ∧
  (is_Ok failed.1.1 = false ∧
   is_Ok retried.1.1 = true ∧
   calls retried.2 = calls failed.2).
Proof. by cbv. Qed.

Lemma scriptedClient_handlesMarkSuccess : handlesMarkSuccess scriptedClient.
Proof.
  intros req g h err g'. simpl.
  destruct (failuresLeft g); intros [= <- <- <-]; split; done.
Qed.

Lemma Connect_opens_session_once_witness :
  let c0 := freshConnector scriptedClient in
  let w0 := freshWorld {| failuresLeft := 0; opened := 0; closeFails := false |} in
  let c1 := setSessionHandle c0 "session-" in
  calls (Connect c0 w0).2 = calls w0 ++ [openRequest c0] ∧
  sessionHandle c1 ≠ EmptyString ∧
  connOf c1 = connOf c1 ∧
  ∀ w2, Connect c1 w2 = (Ok (connOf c1), c1, w2).
Proof.
  intros c0 w0 c1.
  exact (Connect_opens_session_once c0 c1 w0 (Connect c0 w0).2 (Ok (connOf c1))
           scriptedClient_handlesMarkSuccess eq_refl eq_refl).
Defined.

(** C3, counterexample.  Open a session, close the connector, connect
    again: the second connection is bound to the handle that was closed,
    no new session is opened, and a second [Close] sends that handle to
    the gateway once more. *)
Lemma Connect_after_Close_reuses_handle :
  let c0 := freshConnector scriptedClient in
  let w0 := freshWorld {| failuresLeft := 0; opened := 0; closeFails := false |} in
  let connected := Connect c0 w0 in
  let closed := Close connected.1.2 connected.2 in
  let again := Connect closed.1.2 closed.2 in
  let closedTwice := Close again.1.2 again.2 in
  let c1 := setSessionHandle c0 "session-" in
  connected.1.1 = Ok (connOf c1) ∧
  again.1.1 = Ok (connOf c1) ∧
  calls again.2 = [openRequest c0; CallCloseSession "session-"] ∧
  calls closedTwice.2 =
    [openRequest c0; CallCloseSession "session-"; CallCloseSession "session-"].
Proof. by cbv. Qed.

Lemma property_merge_is_right_biased_witness :
  entries (cfgProperties
             (WithProperties (Some {[ "a" := "2" ]})
                (WithProperties (Some {[ "a" := "1" ]}) WithDefaults))) !! "a"
    = Some "2" ∧
  WithProperties (Some {[ "b" := "2" ]}) (WithProperties (Some {[ "a" := "1" ]}) WithDefaults) =
  WithProperties (Some {[ "a" := "1" ]}) (WithProperties (Some {[ "b" := "2" ]}) WithDefaults) ∧
  mergeProperties "http://localhost:8083?a=1&b=3" (Some {[ "a" := "2" ]})
    = Ok (<["a":="2"]> (<["b":="3"]> ∅)) ∧
  (<["a":="2"]> (<["b":="3"]> ∅) : Properties) !! "a" = Some "2".
Proof.
  pose proof (property_merge_is_right_biased WithDefaults
                {[ "a" := "1" ]} {[ "a" := "2" ]} "a" "2"
                "http://localhost:8083?a=1&b=3" (Some {[ "a" := "2" ]})
                (<["a":="2"]> (<["b":="3"]> ∅))) as (Hbias & _ & _ & Hmerge).
  pose proof (property_merge_is_right_biased WithDefaults
                {[ "a" := "1" ]} {[ "b" := "2" ]} "a" "2"
                EmptyString None ∅) as (_ & _ & Hcomm & _).
  assert (mergeProperties "http://localhost:8083?a=1&b=3" (Some {[ "a" := "2" ]})
          = Ok (<["a":="2"]> (<["b":="3"]> ∅))) as Hm by (vm_compute; reflexivity).
  split_and!.
  - apply Hbias. reflexivity.
  - apply Hcomm.
    rewrite !dom_singleton_L. apply disjoint_singleton_l.
    rewrite elem_of_singleton. discriminate.
  - exact Hm.
  - apply Hmerge; [exact Hm | reflexivity].
Defined.

Lemma Close_keeps_session_handle_witness :
  let c1 := setSessionHandle (freshConnector scriptedClient) "session-" in
  let w1 := {| gateway := {| failuresLeft := 0; opened := 1; closeFails := false |};
               calls := [openRequest c1] |} in
  ∃ w',
    Close c1 w1 = (None, c1, w') ∧
    calls w' = calls w1 ++ [CallCloseSession "session-"] ∧
    Connect c1 w' = (Ok (connOf c1), c1, w') ∧
    ∃ w'',
      Close c1 w' = (None, c1, w'') ∧
      calls w'' = calls w' ++ [CallCloseSession "session-"].
Proof.
  intros c1 w1. apply (Close_keeps_session_handle c1 w1). discriminate.
Defined.

(** [Close] on a gateway whose [CloseSession] fails, and on a connector
    that never opened a session. *)
Lemma Close_returns_nil_witness :
  let c0 := freshConnector scriptedClient in
  let c1 := setSessionHandle c0 "session-" in
  let w := freshWorld {| failuresLeft := 0; opened := 1; closeFails := true |} in
  CloseSession scriptedClient "session-" (gateway w)
    = (Some (errorString "session not found"), gateway w) ∧
  (Close c1 w).1.1 = None ∧
  Close c0 w = (None, c0, w).
Proof.
  intros c0 c1 w.
  pose proof (Close_returns_nil scriptedNewClient c1 w []) as (Hnil & _).
  pose proof (Close_returns_nil scriptedNewClient c0 w []) as (_ & _ & _ & Hnone & _).
  split; [reflexivity|]. split; [exact Hnil|].
  apply Hnone. reflexivity.
Defined.

(** ** The operation poller *)

Module PollerFacts.

Import Poller.

Lemma last_observe (op : Operation) (r : Run) :
  last (observed (observe op r)) =
    match last (observed r) with
    | Some op' => Some op'
    | None => Some op
    end.
Proof. simpl. destruct (observed r) as [|op' l]; [done|]. by rewrite last_cons. Qed.

(** What a run returns is decided by the operation it saw last: the
    verdict of a terminal status, and otherwise (also when it saw none)
    the run gave up. *)
Lemma poll_accounts (env : Surroundings) (fuel n : nat) (run : Run) :
  poll env fuel n = Some run →
  match last (observed run) ≫= verdict with
  | Some v => outcome run = v
  | None => gaveUp (outcome run)
  end.
Proof.
  revert n run. induction fuel as [|fuel IH]; intros n run; simpl; [done|].
  destruct (contextErr env n); [by intros [= <-]|].
  destruct (getOperationStatus env n) as [op|e]; [|by intros [= <-]].
  destruct (status op) eqn:Hst;
    try (intros [= <-]; simpl; unfold verdict; by rewrite Hst).
  all: destruct (poll env fuel (S n)) as [r|] eqn:Hpoll; [|done];
    intros [= <-]; apply IH in Hpoll;
    rewrite last_observe; simpl outcome;
    destruct (last (observed r)) as [op'|]; simpl in *; [done|];
    unfold verdict; by rewrite Hst.
Qed.

Lemma poll_settles (env : Surroundings) (k : nat) (op : Operation) (fuel : nat) :
  settlesAt env k op →
  k < fuel →
  ∃ run, poll env fuel 0 = Some run ∧
         last (observed run) = Some op ∧
         length (observed run) = S k ∧
         cancelIssued run = false.
Proof.
  intros (Hbefore & Hctx & Hget & Hterm).
  assert (∀ j f n, n + j = k → j < f →
            ∃ run, poll env f n = Some run ∧ last (observed run) = Some op ∧
                   length (observed run) = S j ∧ cancelIssued run = false)
    as Hgen.
  { induction j as [|j IH]; intros f n Hn Hf.
    - destruct f as [|f]; [lia|]. simpl.
      replace n with k by lia. rewrite Hctx, Hget.
      destruct (status op); try done; eauto.
    - destruct f as [|f]; [lia|]. simpl.
      destruct (Hbefore n) as (-> & op' & -> & Hnt); [lia|].
      destruct (IH f (S n)) as (run & -> & Hlast & Hlen & Hc); [lia|lia|].
      exists (observe op' run).
      destruct (status op'); try done;
        (split; [done|]); rewrite last_observe, Hlast; simpl; auto. }
  intros Hk. apply (Hgen k fuel 0); lia.
Qed.

(** C4.  Whatever a polling run returns, it returns success exactly when
    the status it observed last is FINISHED, [OperationFailed] with the
    operation's error message when that status is ERROR, and
    [OperationCanceled] when it is CANCELED; and once the gateway reports
    a terminal status on the [k]-th call, a run of more than [k] rounds
    does return, having observed that status last. *)
Theorem poll_result_follows_status
    (env : Surroundings) (fuel n k : nat) (run : Run) (final : Operation) :
  (poll env fuel n = Some run →
   (outcome run = Success ↔ lastStatus run = Some FINISHED) ∧
   (∀ op, last (observed run) = Some op → status op = ERROR →
          outcome run = OperationFailed (message op)) ∧
   (lastStatus run = Some CANCELED → outcome run = OperationCanceled)) ∧
  (settlesAt env k final → k < fuel →
   ∃ run', poll env fuel 0 = Some run' ∧ last (observed run') = Some final).
Proof.
  split.
  - intros Hpoll%poll_accounts. unfold lastStatus.
    destruct (last (observed run)) as [op|] eqn:Hlast; simpl in *.
    + unfold verdict in Hpoll. split_and!.
      * destruct (status op); simpl in *; try rewrite Hpoll;
          split; try done; intros Hs; rewrite Hs in Hpoll; done.
      * intros op' [= <-] Hs. by rewrite Hs in Hpoll.
      * intros [= Hs]. by rewrite Hs in Hpoll.
    + split_and!; try done.
      split; [|done]. intros Hs. by rewrite Hs in Hpoll.
  - intros Hsettle Hk.
    destruct (poll_settles env k final fuel Hsettle Hk) as (run' & ? & ? & _).
    eauto.
Qed.

End PollerFacts.

(** ** The result pager *)

Module PagerFacts.

Import Decoder Pager.

Section Pages.

Variable fetchResultPage : option Token → result ResultPage.

Local Abbreviation Chain := (Pager.Chain fetchResultPage).
Local Abbreviation drain := (Pager.drain fetchResultPage).

(** Buffered rows are handed out first, one per move. *)
Lemma drain_buffer (b : list RawRow) (p : Pending) (f : list (option Token)) (fuel : nat) :
  drain (length b + fuel) {| buffered := b; pending := p; fetched := f |} =
    match drain fuel {| buffered := []; pending := p; fetched := f |} with
    | Some (rs, e, final) => Some (b ++ rs, e, final)
    | None => None
    end.
Proof.
  induction b as [|row b IH]; simpl.
  - by destruct (drain fuel _) as [[[rs e] final]|].
  - rewrite IH. by destruct (drain fuel _) as [[[rs e] final]|].
Qed.

Lemma drain_chain (token : option Token) (pages : list ResultPage) :
  Chain token pages →
  ∀ (p : Pending) (f : list (option Token)) (fuel : nat),
    request p = Some token →
    length pages + length (allRows pages) < fuel →
    drain fuel {| buffered := []; pending := p; fetched := f |} =
      Some (allRows pages, None,
            {| buffered := []; pending := NoMorePages;
               fetched := f ++ token :: laterTokens pages |}).
Proof.
  induction 1 as [token page Hfetch Hnext
                 |token page next pages Hfetch Hnext Hchain IH];
    intros p f fuel Hreq Hfuel.
  - unfold allRows in *. simpl in *. rewrite app_nil_r in *.
    destruct fuel as [|fuel]; [lia|]. simpl.
    assert (advance fetchResultPage {| buffered := []; pending := p; fetched := f |}
            = (Refilled, {| buffered := rows page; pending := NoMorePages;
                            fetched := f ++ [token] |})) as ->.
    { unfold advance, refill. simpl.
      destruct p; simpl in *; simplify_eq; by rewrite Hfetch, Hnext. }
    replace fuel with (length (rows page) + (fuel - length (rows page))) by lia.
    rewrite drain_buffer.
    destruct (fuel - length (rows page)) as [|fuel'] eqn:Hrest; [lia|].
    simpl. by rewrite app_nil_r.
  - assert (length (allRows (page :: pages))
            = length (rows page) + length (allRows pages)) as Hlen.
    { unfold allRows. simpl. by rewrite length_app. }
    simpl in Hfuel. rewrite Hlen in Hfuel.
    destruct fuel as [|fuel]; [lia|]. simpl.
    assert (advance fetchResultPage {| buffered := []; pending := p; fetched := f |}
            = (Refilled, {| buffered := rows page; pending := NextPage next;
                            fetched := f ++ [token] |})) as ->.
    { unfold advance, refill. simpl.
      destruct p; simpl in *; simplify_eq; by rewrite Hfetch, Hnext. }
    replace fuel with (length (rows page) + (fuel - length (rows page))) by lia.
    rewrite drain_buffer.
    rewrite (IH (NextPage next)) by (done || lia).
    unfold allRows. simpl. rewrite <- app_assoc. simpl.
    destruct pages as [|page' pages']; [inversion Hchain|].
    by rewrite Hnext.
Qed.

(** The chain from a token is unique. *)
Lemma Chain_functional (token : option Token) (pages pages' : list ResultPage) :
  Chain token pages → Chain token pages' → pages = pages'.
Proof.
  intros Hchain. revert pages'.
  induction Hchain as [token page Hfetch Hnext
                      |token page next pages Hfetch Hnext Hchain IH];
    intros pages' Hchain'; inversion Hchain'; subst; try congruence.
  assert (page0 = page) as -> by congruence.
  assert (next0 = next) as -> by congruence.
  f_equal. by apply IH.
Qed.

Lemma Chain_later (token : option Token) (pages : list ResultPage) (t : option Token) :
  Chain token pages →
  t ∈ laterTokens pages →
  ∃ rest, Chain t rest ∧ length rest < length pages.
Proof.
  induction 1 as [token page Hfetch Hnext
                 |token page next pages Hfetch Hnext Hchain IH]; intros Hin.
  - by apply elem_of_nil in Hin.
  - destruct pages as [|page' pages']; [inversion Hchain|].
    change (laterTokens (page :: page' :: pages'))
      with (nextPageToken page :: laterTokens (page' :: pages')) in Hin.
    apply elem_of_cons in Hin as [->|Hin].
    + rewrite Hnext. exists (page' :: pages'). split; [done|]. simpl. lia.
    + destruct (IH Hin) as (rest & Hrest & Hlen).
      exists rest. split; [done|]. simpl in *. lia.
Qed.

(** No token is requested twice along a chain. *)
Lemma Chain_tokens_NoDup (token : option Token) (pages : list ResultPage) :
  Chain token pages → NoDup (token :: laterTokens pages).
Proof.
  induction 1 as [token page Hfetch Hnext
                 |token page next pages Hfetch Hnext Hchain IH].
  - simpl. apply NoDup_singleton.
  - assert (Chain token (page :: pages)) as Hfull by by eapply Chain_next.
    destruct pages as [|page' pages']; [inversion Hchain|].
    change (laterTokens (page :: page' :: pages'))
      with (nextPageToken page :: laterTokens (page' :: pages')).
    rewrite Hnext. apply NoDup_cons. split; [|done].
    intros Hin.
    assert (∃ rest, Chain token rest ∧ length rest < length (page :: page' :: pages'))
      as (rest & Hrest & Hlen).
    { apply elem_of_cons in Hin as [->|Hin].
      - exists (page' :: pages'). split; [done|]. simpl. lia.
      - destruct (Chain_later _ _ _ Hchain Hin) as (rest & Hrest & Hlen).
        exists rest. split; [done|]. simpl in *. lia. }
    rewrite (Chain_functional _ _ _ Hrest Hfull) in Hlen. lia.
Qed.

(** C5.  When the pages reachable from the first fetch form a finite
    chain in which only the last page has no next-page token, a cursor
    given enough moves hands out exactly the rows of the pages, page
    after page, whether or not some page is empty; it ends without an
    error, and it has requested each page once, in chain order. *)
Theorem pager_yields_concatenation (pages : list ResultPage) (fuel : nat) :
  Chain None pages →
  length pages + length (allRows pages) < fuel →
  ∃ final,
    drain fuel start = Some (allRows pages, None, final) ∧
    fetched final = None :: laterTokens pages ∧
    length (fetched final) = length pages ∧
    NoDup (fetched final).
Proof.
  intros Hchain Hfuel.
  eexists. split; [by apply (drain_chain None pages Hchain FirstPage [])|].
  simpl. split; [done|]. split.
  - clear Hfuel. f_equal.
    induction Hchain as [token page Hfetch Hnext
                        |token page next pages Hfetch Hnext Hchain IH]; [done|].
    destruct pages as [|page' pages']; [inversion Hchain|].
    simpl in *. by rewrite IH.
  - by apply Chain_tokens_NoDup.
Qed.

End Pages.

End PagerFacts.

(** ** The wire value decoder *)

Module DecoderFacts.

Import Decoder.

(** C6.  Whatever the declared remote type, a null cell decodes to the
    absent value on a nullable column, and on a non-nullable column it
    fails with a decode error naming the column: no value is made up
    for it. *)
Theorem decode_null_cell (col : ColumnMeta) :
  (nullable col = true → decode WNull col = inl VAbsent) ∧
  (nullable col = false →
   decode WNull col =
     inr {| errColumn := name col;
            errRemoteType := remoteType col;
            errCause := NullInNonNullable |}).
Proof. unfold decode. split; by intros ->. Qed.

End DecoderFacts.

(** ** Concrete runs of the engine *)

Lemma decode_null_cell_witness :
  Decoder.decode Decoder.WNull
    {| Decoder.name := "note"; Decoder.remoteType := Decoder.INT;
       Decoder.nullable := true |} = inl Decoder.VAbsent ∧
  Decoder.decode Decoder.WNull Pager.idColumn =
    inr {| Decoder.errColumn := "id"; Decoder.errRemoteType := Decoder.INT;
           Decoder.errCause := Decoder.NullInNonNullable |}.
Proof.
  split.
  - apply (DecoderFacts.decode_null_cell
             {| Decoder.name := "note"; Decoder.remoteType := Decoder.INT;
                Decoder.nullable := true |}).
    reflexivity.
  - apply (DecoderFacts.decode_null_cell Pager.idColumn). reflexivity.
Defined.

Lemma threePages_Chain :
  Pager.Chain Pager.threePages None [Pager.page1; Pager.page2; Pager.page3].
Proof.
  eapply Pager.Chain_next; [reflexivity | reflexivity |].
  eapply Pager.Chain_next; [reflexivity | reflexivity |].
  apply Pager.Chain_last; reflexivity.
Defined.

Lemma pager_yields_concatenation_witness :
  ∃ final,
    Pager.drain Pager.threePages 7 Pager.start =
      Some ([[Decoder.WInteger 1]; [Decoder.WInteger 2]; [Decoder.WInteger 3]],
            None, final) ∧
    Pager.fetched final = [None; Some "t1"; Some "t2"] ∧
    length (Pager.fetched final) = 3 ∧
    NoDup (Pager.fetched final).
Proof.
  apply (PagerFacts.pager_yields_concatenation Pager.threePages
           [Pager.page1; Pager.page2; Pager.page3] 7 threePages_Chain).
  simpl. lia.
Defined.

Lemma scripted_settlesAt (final : Poller.Operation) :
  Poller.terminal (Poller.status final) = true →
  Poller.settlesAt (Poller.scripted final) 2 final.
Proof.
  intros Hterm. split; [|done].
  intros i Hi. split; [done|]. simpl.
  rewrite decide_True by done. eauto.
Defined.

Lemma poll_result_follows_status_witness :
  let run := {| Poller.outcome := Poller.OperationFailed "table not found";
                Poller.observed :=
                  [ {| Poller.handle := "op-1"; Poller.opSessionHandle := "session-";
                       Poller.status := Poller.RUNNING; Poller.errorMessage := None |};
                    {| Poller.handle := "op-1"; Poller.opSessionHandle := "session-";
                       Poller.status := Poller.RUNNING; Poller.errorMessage := None |};
                    Poller.failedOperation ];
                Poller.cancelIssued := false |} in
  Poller.poll (Poller.scripted Poller.failedOperation) 3 0 = Some run ∧
  ((Poller.outcome run = Poller.Success ↔
    Poller.lastStatus run = Some Poller.FINISHED) ∧
   (∀ op, last (Poller.observed run) = Some op →
          Poller.status op = Poller.ERROR →
          Poller.outcome run = Poller.OperationFailed (Poller.message op)) ∧
   (Poller.lastStatus run = Some Poller.CANCELED →
    Poller.outcome run = Poller.OperationCanceled)) ∧
  ∃ run', Poller.poll (Poller.scripted Poller.failedOperation) 3 0 = Some run' ∧
          last (Poller.observed run') = Some Poller.failedOperation.
Proof.
  intros run.
  pose proof (PollerFacts.poll_result_follows_status
                (Poller.scripted Poller.failedOperation) 3 0 2 run Poller.failedOperation)
    as [Hpartial Htotal].
  split; [reflexivity|]. split.
  - apply Hpartial. reflexivity.
  - apply Htotal; [by apply scripted_settlesAt | lia].
Defined.

(** * Further properties of the connector and the driver *)

(** ** Sequences of [Connect] and [Close] on one connector *)

Section ConnectorRuns.

Context {G : Type}.

Lemma count_nil {A : Type} (f : A → bool) : count f [] = 0.
Proof. done. Qed.

Lemma count_cons {A : Type} (f : A → bool) (x : A) (l : list A) :
  count f (x :: l) = (if f x then 1 else 0) + count f l.
Proof.
  unfold count. rewrite filter_cons.
  destruct (f x); by case_decide.
Qed.

Lemma count_app {A : Type} (f : A → bool) (l1 l2 : list A) :
  count f (l1 ++ l2) = count f l1 + count f l2.
Proof. unfold count. by rewrite filter_app, length_app. Qed.

Lemma count_replicate_false {A : Type} (f : A → bool) (n : nat) (x : A) :
  f x = false → count f (replicate n x) = 0.
Proof.
  intros Hx. induction n as [|n IH]; [done|].
  simpl. by rewrite count_cons, Hx, IH.
Qed.

Lemma Close_with_session (c : connector G) (w : World G) :
  sessionHandle c ≠ EmptyString →
  Close c w =
    (None, c,
     {| gateway := (CloseSession (client c) (sessionHandle c) (gateway w)).2;
        calls := calls w ++ [CallCloseSession (sessionHandle c)] |}).
Proof.
  intros Hh. unfold Close. rewrite decide_True by done.
  by destruct (CloseSession _ _ _).
Qed.

Lemma run_with_session (ops : list ConnectorCall) (c : connector G) (w : World G) :
  sessionHandle c ≠ EmptyString →
  ∃ w', run ops c w = (outcomeWithSession c <$> ops, c, w') ∧
        calls w' =
          calls w ++ replicate (count isClose ops) (CallCloseSession (sessionHandle c)).
Proof.
  intros Hh. revert w. induction ops as [|op ops IH]; intros w.
  - exists w. split; [done|]. simpl. by rewrite app_nil_r.
  - rewrite count_cons. destruct op; simpl.
    + rewrite Connect_with_session by done.
      destruct (IH w) as (w' & -> & Hcalls).
      exists w'. by split.
    + rewrite Close_with_session by done.
      destruct (IH {| gateway := (CloseSession (client c) (sessionHandle c) (gateway w)).2;
                      calls := calls w ++ [CallCloseSession (sessionHandle c)] |})
        as (w' & -> & Hcalls).
      exists w'. split; [done|].
      rewrite Hcalls. simpl. by rewrite <- app_assoc.
Qed.

(** X1.  Once a connector holds a session handle, no sequence of
    [Connect] and [Close] calls changes the connector: every [Connect]
    succeeds with a connection bound to that handle, every [Close]
    returns nil, and the only calls that reach the gateway are one
    [CloseSession] for that handle per [Close]; no session is opened,
    whatever the client would answer. *)
Theorem run_never_replaces_session
    (ops : list ConnectorCall) (c : connector G) (w : World G) :
  sessionHandle c ≠ EmptyString →
  ∃ w', run ops c w = (outcomeWithSession c <$> ops, c, w') ∧
        calls w' =
          calls w ++ replicate (count isClose ops) (CallCloseSession (sessionHandle c)).
Proof.
  intros Hh. revert w. induction ops as [|op ops IH]; intros w.
  - exists w. split; [done|]. simpl. by rewrite app_nil_r.
  - rewrite count_cons. destruct op; simpl.
    + rewrite Connect_with_session by done.
      destruct (IH w) as (w' & -> & Hcalls).
      exists w'. by split.
    + rewrite Close_with_session by done.
      destruct (IH {| gateway := (CloseSession (client c) (sessionHandle c) (gateway w)).2;
                      calls := calls w ++ [CallCloseSession (sessionHandle c)] |})
        as (w' & -> & Hcalls).
      exists w'. split; [done|].
      rewrite Hcalls. simpl. by rewrite <- app_assoc.
Qed.

Lemma Connect_keeps_fields (c c' : connector G) (w w' : World G)
    (r : result (flinkConn G)) :
  Connect c w = (r, c', w') →
  client c' = client c ∧ config c' = config c ∧ properties c' = properties c ∧
  (calls w' = calls w ∨ calls w' = calls w ++ [openRequest c]) ∧
  (sessionHandle c ≠ EmptyString → c' = c).
Proof.
  unfold Connect. case_decide as Hh.
  - destruct (OpenSession _ _ _) as [[h err] g'].
    destruct err; intros [= <- <- <-]; simpl; split_and!; try done; by right.
  - intros [= <- <- <-]. split_and!; try done. by left.
Qed.

Lemma Close_keeps_connector (c c' : connector G) (w w' : World G) (e : option error) :
  Close c w = (e, c', w') →
  c' = c ∧ e = None ∧
  (calls w' = calls w ∨ calls w' = calls w ++ [CallCloseSession (sessionHandle c)]).
Proof.
  unfold Close. case_decide.
  - destruct (CloseSession _ _ _). intros [= <- <- <-]. split_and!; try done. by right.
  - intros [= <- <- <-]. split_and!; try done. by left.
Qed.

(** X2.  Whatever the client answers and in whatever state the connector
    is, a sequence of [Connect] and [Close] calls never changes the
    connector's client, configuration or properties; it returns one
    result per call; the log of gateway calls is only extended, by at
    most one call per [Connect] or [Close]; and every [OpenSession] it
    sends carries the connector's properties. *)
Theorem run_keeps_configuration
    (ops : list ConnectorCall) (c : connector G) (w : World G) :
  client (run ops c w).1.2 = client c ∧
  config (run ops c w).1.2 = config c ∧
  properties (run ops c w).1.2 = properties c ∧
  length (run ops c w).1.1 = length ops ∧
  ∃ issued,
    calls (run ops c w).2 = calls w ++ issued ∧
    length issued ≤ length ops ∧
    Forall (λ call, ∀ req, call = CallOpenSession req →
                           reqProperties req = properties c) issued.
Proof.
  revert c w. induction ops as [|op ops IH]; intros c w.
  - simpl. split_and!; try done. exists []. by rewrite app_nil_r.
  - destruct op; simpl.
    + destruct (Connect c w) as [[r c1] w1] eqn:Hconnect.
      apply Connect_keeps_fields in Hconnect as (Hcl & Hcfg & Hprops & Hcalls & _).
      destruct (run ops c1 w1) as [[outs c2] w2] eqn:Hrun.
      destruct (IH c1 w1) as (Hcl' & Hcfg' & Hprops' & Hlen & issued & Hissued & Hle & Hall).
      rewrite Hrun in *. simpl in *.
      split_and!; try congruence; try (by rewrite Hlen).
      destruct Hcalls as [Hcalls|Hcalls]; rewrite Hcalls in Hissued.
      * exists issued. split_and!; [done|lia|]. by rewrite <- Hprops.
      * exists (openRequest c :: issued). rewrite <- app_assoc in Hissued.
        split_and!; [done|simpl; lia|].
        apply Forall_cons. split; [by intros req [= <-]|]. by rewrite <- Hprops.
    + destruct (Close c w) as [[e c1] w1] eqn:Hclose.
      apply Close_keeps_connector in Hclose as (-> & _ & Hcalls).
      destruct (run ops c w1) as [[outs c2] w2] eqn:Hrun.
      destruct (IH c w1) as (Hcl' & Hcfg' & Hprops' & Hlen & issued & Hissued & Hle & Hall).
      rewrite Hrun in *. simpl in *.
      split_and!; try congruence; try (by rewrite Hlen).
      destruct Hcalls as [Hcalls|Hcalls]; rewrite Hcalls in Hissued.
      * exists issued. split_and!; [done|lia|done].
      * exists (CallCloseSession (sessionHandle c) :: issued).
        rewrite <- app_assoc in Hissued.
        split_and!; [done|simpl; lia|].
        apply Forall_cons. split; [by intros req [=]|done].
Qed.

Lemma outcomeWithSession_never_failed (c : connector G) (ops : list ConnectorCall) :
  count connectFailed (outcomeWithSession c <$> ops) = 0.
Proof.
  induction ops as [|op ops IH]; [done|].
  rewrite fmap_cons, count_cons, IH. by destruct op.
Qed.

Lemma outcomeWithSession_conn (c : connector G) (ops : list ConnectorCall) :
  Forall (λ o, ∀ conn, o = Connected (Ok conn) → conn = connOf c)
    (outcomeWithSession c <$> ops).
Proof.
  apply Forall_fmap, Forall_forall. intros op _ conn. simpl.
  destruct op; simpl; by intros [= <-].
Qed.

Lemma Close_without_session (c : connector G) (w : World G) :
  sessionHandle c = EmptyString → Close c w = (None, c, w).
Proof. intros Hh. unfold Close. by rewrite decide_False by auto. Qed.

(** X3.  For a client that follows the handle convention and a connector
    that holds no session handle, any sequence of [Connect] and [Close]
    calls opens at most one session that succeeds: the number of
    [OpenSession] calls sent is the number of failed [Connect]s plus one
    if some [Connect] succeeded (and none otherwise), and every
    connection handed out is bound to the one handle the connector holds
    at the end. *)
Theorem run_opens_at_most_one_session
    (ops : list ConnectorCall) (c : connector G) (w : World G) :
  handlesMarkSuccess (client c) →
  sessionHandle c = EmptyString →
  Forall (λ o, ∀ conn, o = Connected (Ok conn) → conn = connOf (run ops c w).1.2)
    (run ops c w).1.1 ∧
  ∃ issued,
    calls (run ops c w).2 = calls w ++ issued ∧
    count isOpenSession issued =
      count connectFailed (run ops c w).1.1 +
      (if decide (count connectSucceeded (run ops c w).1.1 = 0) then 0 else 1).
Proof.
  revert c w. induction ops as [|op ops IH]; intros c w Hconv Hnone.
  - simpl. split; [done|]. exists []. by rewrite app_nil_r.
  - destruct op; simpl.
    + rewrite Connect_without_session by done.
      destruct (OpenSession (client c) _ (gateway w)) as [[h err] g'] eqn:Hopen.
      apply Hconv in Hopen as [Hok Hfail].
      set (w1 := {| gateway := g'; calls := calls w ++ [openRequest c] |}).
      destruct err as [e|]; cbv zeta.
      * assert (sessionHandle (setSessionHandle c h) = EmptyString) as Hh
          by (simpl; by apply Hfail).
        destruct (IH (setSessionHandle c h) w1 Hconv Hh)
          as (Hall & issued & Hcalls & Hcount).
        destruct (run ops (setSessionHandle c h) w1) as [[outs c2] w2].
        simpl in *. split; [by apply Forall_cons|].
        exists (openRequest c :: issued).
        rewrite Hcalls, <- app_assoc. split; [done|].
        rewrite !count_cons. cbn. unfold count in *. repeat case_decide; lia.
      * assert (sessionHandle (setSessionHandle c h) ≠ EmptyString) as Hh
          by (simpl; by apply Hok).
        destruct (run_with_session ops (setSessionHandle c h) w1 Hh)
          as (w2 & -> & Hcalls).
        simpl. split.
        { apply Forall_cons. split; [by intros conn [= <-]|].
          apply outcomeWithSession_conn. }
        eexists. rewrite Hcalls. simpl. rewrite <- app_assoc. split; [done|].
        simpl. rewrite !count_cons, outcomeWithSession_never_failed. simpl.
        by rewrite count_replicate_false.
    + rewrite Close_without_session by done.
      destruct (IH c w Hconv Hnone) as (Hall & issued & Hcalls & Hcount).
      destruct (run ops c w) as [[outs c2] w2].
      simpl in *. split; [by apply Forall_cons|].
      exists issued. split; [done|].
      rewrite !count_cons. cbn. unfold count in *. repeat case_decide; lia.
Qed.

(** X4.  [Connect] fails only while it is opening a session: the
    connector held no handle, [OpenSession] was called once with the
    connector's properties and answered with an error, that error comes
    back wrapped as [flink: failed to open session: ...], and the handle
    returned next to the error is what the connector holds afterwards. *)
Theorem Connect_fails_only_opening
    (c c' : connector G) (w w' : World G) (e : error) :
  Connect c w = (Err e, c', w') →
  sessionHandle c = EmptyString ∧
  ∃ h cause g',
    OpenSession (client c) {| reqProperties := properties c |} (gateway w)
      = ((h, Some cause), g') ∧
    e = wrapError "flink: failed to open session: " cause ∧
    c' = setSessionHandle c h ∧
    w' = {| gateway := g'; calls := calls w ++ [openRequest c] |}.
Proof.
  unfold Connect. case_decide as Hh; [|done].
  destruct (OpenSession _ _ _) as [[h err] g'].
  destruct err as [cause|]; [|done].
  intros [= <- <- <-]. split; [done|]. by exists h, cause, g'.
Qed.

End ConnectorRuns.

(** ** [OpenConnector] and [Open] on arbitrary connection strings *)

Lemma Cut_found (s before after : string) (sep : ascii) :
  Cut s sep = (before, after, true) →
  s = before +:+ String sep after ∧ contains sep before = false.
Proof.
  revert before. induction s as [|c s IH]; simpl; intros before; [done|].
  destruct (Ascii.eqb c sep) eqn:Hc.
  - intros [= <- <-]. apply Ascii.eqb_eq in Hc as ->. done.
  - destruct (Cut s sep) as [[b a] f].
    intros [= <- <- ->]. destruct (IH b eq_refl) as [-> Hb].
    simpl. by rewrite Hc, Hb.
Qed.

Lemma Cut_not_found (s before after : string) (sep : ascii) :
  Cut s sep = (before, after, false) →
  before = s ∧ after = EmptyString ∧ contains sep s = false.
Proof.
  revert before. induction s as [|c s IH]; simpl; intros before.
  - by intros [= <- <-].
  - destruct (Ascii.eqb c sep) eqn:Hc; [done|].
    destruct (Cut s sep) as [[b a] f].
    intros [= <- <- ->]. destruct (IH b eq_refl) as (-> & -> & Hs).
    by rewrite Hs.
Qed.

Section DriverOnAnyInput.

Context {G : Type}.
Variable NewClient : string → HttpClient → string → result (GatewayClient G).

Lemma NewConnector_Ok (options : list ConnOption) (c : connector G) :
  NewConnector NewClient options = Ok c →
  sessionHandle c = EmptyString ∧
  config c = applyOptions options WithDefaults ∧
  NewClient (GatewayURL (config c)) (Client (config c)) (APIVersion (config c))
    = Ok (client c).
Proof.
  unfold NewConnector.
  destruct (mergeProperties _ _) as [merged|]; [|done].
  destruct (NewClient _ _ _) as [cl|] eqn:Hcl; [|done].
  intros [= <-]. simpl. by rewrite Hcl.
Qed.


(** The connection string seen as [OpenConnector] sees it: the text
    before the first [?] and the options it hands to [NewConnector], or
    the error of the query's parser. *)
Lemma OpenConnector_cases (dsn : string) :
  ∃ base,
    contains "?"%char base = false ∧
    (dsn = base ∨ ∃ query, dsn = base +:+ String "?"%char query) ∧
    ((∃ cause, OpenConnector NewClient dsn =
                 Err (wrapError "flink: invalid DSN properties: " cause)) ∨
     OpenConnector NewClient dsn = NewConnector NewClient [WithGatewayURL base] ∨
     (∃ props, OpenConnector NewClient dsn =
                 NewConnector NewClient [WithGatewayURL base; WithProperties props])).
Proof.
  unfold OpenConnector.
  destruct (Cut dsn "?"%char) as [[base rawQuery] found] eqn:Hcut.
  destruct found.
  - apply Cut_found in Hcut as [-> Hbase].
    exists base. split; [done|]. split; [right; by exists rawQuery|].
    case_decide.
    + destruct (parseURIParameters rawQuery) as [parsed|cause].
      * right. simpl. case_decide; [right; by eexists|by left].
      * left. by exists cause.
    + right. left. simpl. by rewrite map_size_empty, decide_False by auto.
  - apply Cut_not_found in Hcut as (-> & -> & Hdsn).
    exists dsn. split; [done|]. split; [by left|].
    right. left. simpl. by rewrite map_size_empty, decide_False by auto.
Qed.

Lemma OpenConnector_Ok (dsn : string) (c : connector G) :
  OpenConnector NewClient dsn = Ok c →
  sessionHandle c = EmptyString ∧
  Client (config c) = DefaultClient ∧
  APIVersion (config c) = "v3" ∧
  contains "?"%char (GatewayURL (config c)) = false ∧
  (dsn = GatewayURL (config c) ∨
   ∃ query, dsn = GatewayURL (config c) +:+ String "?"%char query) ∧
  NewClient (GatewayURL (config c)) DefaultClient "v3" = Ok (client c).
Proof.
  intros Hopen.
  destruct (OpenConnector_cases dsn) as (base & Hbase & Hdsn & Hcases).
  destruct Hcases as [[cause Herr] | [Hnew | [props Hnew]]];
    rewrite Hopen in *; [done| |];
    symmetry in Hnew; apply NewConnector_Ok in Hnew as (Hh & Hcfg & Hcl);
    rewrite Hcfg in *; simpl in *; done.
Qed.

(** X5.  Whatever the connection string, a connector [OpenConnector]
    returns holds no session handle, is configured with
    [http.DefaultClient] and API version [v3], and has as gateway URL the
    text of the connection string before its first [?] (the whole string
    when it has none); its client is the one [NewClient] built for that
    URL. *)
Theorem OpenConnector_configuration (dsn : string) (c : connector G) :
  OpenConnector NewClient dsn = Ok c →
  sessionHandle c = EmptyString ∧
  Client (config c) = DefaultClient ∧
  APIVersion (config c) = "v3" ∧
  contains "?"%char (GatewayURL (config c)) = false ∧
  (dsn = GatewayURL (config c) ∨
   ∃ query, dsn = GatewayURL (config c) +:+ String "?"%char query) ∧
  NewClient (GatewayURL (config c)) DefaultClient "v3" = Ok (client c).
Proof.
  intros Hopen.
  destruct (OpenConnector_cases dsn) as (base & Hbase & Hdsn & Hcases).
  destruct Hcases as [[cause Herr] | [Hnew | [props Hnew]]];
    rewrite Hopen in *; [done| |].
  - symmetry in Hnew. apply NewConnector_Ok in Hnew as (Hh & Hcfg & Hcl).
    rewrite Hcfg in *. simpl in *. done.
  - symmetry in Hnew. apply NewConnector_Ok in Hnew as (Hh & Hcfg & Hcl).
    rewrite Hcfg in *. simpl in *. done.
Qed.

(** X6.  A connection string that ends in a bare [?] is read as the one
    without it, and a connection string without [?] is read as
    [NewConnector] with the single option [WithGatewayURL]. *)
Theorem OpenConnector_empty_query (url : string) :
  contains "?"%char url = false →
  OpenConnector NewClient (url +:+ String "?"%char EmptyString) =
    OpenConnector NewClient url ∧
  OpenConnector NewClient url = NewConnector NewClient [WithGatewayURL url].
Proof.
  intros Hurl. unfold OpenConnector.
  rewrite Cut_present, Cut_absent by done.
  rewrite decide_False by auto. simpl.
  by rewrite map_size_empty, decide_False by auto.
Qed.


(** X8.  [Open] builds a connector of its own on every call: when the
    connection string is refused it returns that error and no call
    reaches the gateway; otherwise it sends exactly one [OpenSession],
    carrying the properties of the connector [OpenConnector] built, so
    that two [Open] calls with one connection string open two
    sessions. *)
Theorem Open_opens_a_session_per_call (dsn : string) (w : World G) :
  match OpenConnector NewClient dsn with
  | Err e => Open NewClient dsn w = (Err e, None, w)
  | Ok c =>
      calls (Open NewClient dsn w).2 = calls w ++ [openRequest c] ∧
      calls (Open NewClient dsn (Open NewClient dsn w).2).2
        = calls w ++ [openRequest c; openRequest c]
  end.
Proof.
  unfold Open.
  destruct (OpenConnector NewClient dsn) as [c|e] eqn:Hopen; [|done].
  apply OpenConnector_Ok in Hopen as (Hh & _).
  assert (∀ w0, calls (let '(r, conn', w') := Connect c w0 in (r, Some conn', w')).2
                = calls w0 ++ [openRequest c]) as Hone.
  { intros w0. rewrite Connect_without_session by done.
    destruct (OpenSession _ _ _) as [[h err] g']. by destruct err. }
  split; [apply Hone|].
  rewrite !Hone. by rewrite <- app_assoc.
Qed.

End DriverOnAnyInput.

(** ** How options compose *)

Lemma build_commute (a b : OptionSpec) (cfg : ConnConfig) :
  fieldOf a ≠ fieldOf b → build a (build b cfg) = build b (build a cfg).
Proof. by destruct a, b. Qed.

Lemma build_override (a b : OptionSpec) (cfg : ConnConfig) :
  fieldOf a = fieldOf b →
  fieldOf b ≠ FieldProperties →
  build b (build a cfg) = build b cfg.
Proof. by destruct a, b. Qed.

Lemma applyOptions_app (l1 l2 : list ConnOption) (cfg : ConnConfig) :
  applyOptions (l1 ++ l2) cfg = applyOptions l2 (applyOptions l1 cfg).
Proof. unfold applyOptions. by rewrite foldl_app. Qed.

(** Two configurations that every option for [field] maps to the same
    configuration stay so under any further options. *)
Lemma applyOptions_masked (field : ConfigField) (mid : list OptionSpec)
    (cfg1 cfg2 : ConnConfig) :
  (∀ o, fieldOf o = field → build o cfg1 = build o cfg2) →
  ∀ o, fieldOf o = field →
       build o (applyOptions (build <$> mid) cfg1) =
       build o (applyOptions (build <$> mid) cfg2).
Proof.
  revert cfg1 cfg2. induction mid as [|m mid IH]; intros cfg1 cfg2 Hmask; [done|].
  simpl. apply IH. intros o Ho.
  destruct (decide (fieldOf m = field)) as [Hm|Hm].
  - by rewrite (Hmask m Hm).
  - rewrite !(build_commute o m) by congruence. by rewrite (Hmask o Ho).
Qed.

Section OptionOrder.

Context {G : Type}.
Variable NewClient : string → HttpClient → string → result (GatewayClient G).

Lemma NewConnector_same_config (options options' : list ConnOption) :
  applyOptions options WithDefaults = applyOptions options' WithDefaults →
  NewConnector NewClient options = NewConnector NewClient options'.
Proof. unfold NewConnector. by intros ->. Qed.

(** X9.  Two adjacent options that set different fields of the
    configuration can be exchanged: [NewConnector] returns the same
    result. *)
Theorem NewConnector_options_commute
    (before after : list OptionSpec) (a b : OptionSpec) :
  fieldOf a ≠ fieldOf b →
  NewConnector NewClient (build <$> before ++ a :: b :: after) =
  NewConnector NewClient (build <$> before ++ b :: a :: after).
Proof.
  intros Hab. apply NewConnector_same_config.
  rewrite !fmap_app, !applyOptions_app. simpl.
  by rewrite (build_commute b a) by congruence.
Qed.

(** X10.  Of two options that set the same field, other than the
    properties, only the later one counts: the earlier one can be
    removed, wherever it stands, without changing what [NewConnector]
    returns. *)
Theorem NewConnector_later_option_wins
    (before between after : list OptionSpec) (a b : OptionSpec) :
  fieldOf a = fieldOf b →
  fieldOf b ≠ FieldProperties →
  NewConnector NewClient (build <$> before ++ a :: between ++ b :: after) =
  NewConnector NewClient (build <$> before ++ between ++ b :: after).
Proof.
  intros Hab Hb. apply NewConnector_same_config.
  rewrite !fmap_app, !applyOptions_app. simpl.
  rewrite !fmap_app, !applyOptions_app. simpl. f_equal.
  apply (applyOptions_masked (fieldOf b)); [|done].
  intros o Ho. apply build_override; congruence.
Qed.

End OptionOrder.

(** X11.  After [WithProperties] the configuration's property map is
    never nil; a key of the argument has the argument's value and every
    other key keeps the value it had, so no property is ever removed; a
    nil or empty argument changes nothing in a configuration whose map
    is not nil. *)
Theorem WithProperties_keeps_other_keys
    (p : option Properties) (cfg : ConnConfig) (k : string) :
  cfgProperties (WithProperties p cfg) ≠ None ∧
  entries (cfgProperties (WithProperties p cfg)) !! k =
    match entries p !! k with
    | Some v => Some v
    | None => entries (cfgProperties cfg) !! k
    end ∧
  (entries p = ∅ → cfgProperties cfg ≠ None → WithProperties p cfg = cfg).
Proof.
  split; [done|]. split.
  - unfold WithProperties. simpl. rewrite rangeAssign_union, lookup_union.
    replace (match cfgProperties cfg with Some m => m | None => ∅ end)
      with (entries (cfgProperties cfg)) by by destruct (cfgProperties cfg).
    by destruct (entries p !! k), (entries (cfgProperties cfg) !! k).
  - intros Hp Hcfg. unfold WithProperties. rewrite Hp, rangeAssign_empty_l.
    destruct cfg as [u h v [m|]]; done.
Qed.

(** X12.  Applying [WithProperties] twice is applying it once with the
    two maps merged, the later map on top; in particular applying the
    same map twice is applying it once. *)
Theorem WithProperties_fuses (p1 p2 : option Properties) (cfg : ConnConfig) :
  WithProperties p2 (WithProperties p1 cfg) =
    WithProperties (Some (entries p2 ∪ entries p1)) cfg ∧
  WithProperties p1 (WithProperties p1 cfg) = WithProperties p1 cfg.
Proof.
  unfold WithProperties. simpl. rewrite !rangeAssign_union. split.
  - by rewrite (assoc_L (∪)).
  - by rewrite (assoc_L (∪)), (idemp_L (∪)).
Qed.

(** ** The further properties on concrete gateways *)

Lemma run_never_replaces_session_witness :
  let c1 := setSessionHandle (freshConnector scriptedClient) "session-" in
  let w1 := freshWorld {| failuresLeft := 3; opened := 1; closeFails := true |} in
  ∃ w',
    run [DoConnect; DoClose; DoConnect; DoClose] c1 w1 =
      ([Connected (Ok (connOf c1)); Closed None;
        Connected (Ok (connOf c1)); Closed None], c1, w') ∧
    calls w' = [CallCloseSession "session-"; CallCloseSession "session-"].
Proof.
  intros c1 w1.
  apply (run_never_replaces_session [DoConnect; DoClose; DoConnect; DoClose] c1 w1).
  discriminate.
Defined.

Lemma run_opens_at_most_one_session_witness :
  let c0 := freshConnector scriptedClient in
  let w0 := freshWorld {| failuresLeft := 1; opened := 0; closeFails := false |} in
  let ops := [DoConnect; DoConnect; DoClose; DoConnect] in
  (run ops c0 w0).1.1 =
    [Connected (Err (wrapError "flink: failed to open session: "
                       (errorString "gateway unavailable")));
     Connected (Ok (connOf (setSessionHandle c0 "session-")));
     Closed None;
     Connected (Ok (connOf (setSessionHandle c0 "session-")))] ∧
  Forall (λ o, ∀ conn, o = Connected (Ok conn) → conn = connOf (run ops c0 w0).1.2)
    (run ops c0 w0).1.1 ∧
  ∃ issued,
    calls (run ops c0 w0).2 = calls w0 ++ issued ∧
    count isOpenSession issued =
      count connectFailed (run ops c0 w0).1.1 +
      (if decide (count connectSucceeded (run ops c0 w0).1.1 = 0) then 0 else 1).
Proof.
  intros c0 w0 ops. split; [reflexivity|].
  exact (run_opens_at_most_one_session ops c0 w0
           scriptedClient_handlesMarkSuccess eq_refl).
Defined.

Lemma Connect_fails_only_opening_witness :
  let c0 := freshConnector scriptedClient in
  let w0 := freshWorld {| failuresLeft := 1; opened := 0; closeFails := false |} in
  sessionHandle c0 = EmptyString ∧
  ∃ h cause g',
    OpenSession (client c0) {| reqProperties := properties c0 |} (gateway w0)
      = ((h, Some cause), g') ∧
    wrapError "flink: failed to open session: " (errorString "gateway unavailable")
      = wrapError "flink: failed to open session: " cause ∧
    (Connect c0 w0).1.2 = setSessionHandle c0 h ∧
    (Connect c0 w0).2 = {| gateway := g'; calls := calls w0 ++ [openRequest c0] |}.
Proof.
  intros c0 w0.
  exact (Connect_fails_only_opening c0 (Connect c0 w0).1.2 w0 (Connect c0 w0).2
           (wrapError "flink: failed to open session: "
              (errorString "gateway unavailable")) eq_refl).
Defined.

Lemma OpenConnector_configuration_witness :
  let c := connectorFor scriptedClient "http://example.com:8083"
             (propertiesOf [("opt1", "val1"); ("opt2", "val2")]) in
  sessionHandle c = EmptyString ∧
  Client (config c) = DefaultClient ∧
  APIVersion (config c) = "v3" ∧
  contains "?"%char (GatewayURL (config c)) = false ∧
  ("http://example.com:8083?opt1=val1&opt2=val2" = GatewayURL (config c) ∨
   ∃ query, "http://example.com:8083?opt1=val1&opt2=val2"
            = GatewayURL (config c) +:+ String "?"%char query) ∧
  scriptedNewClient (GatewayURL (config c)) DefaultClient "v3" = Ok (client c).
Proof.
  intros c.
  apply (OpenConnector_configuration scriptedNewClient
           "http://example.com:8083?opt1=val1&opt2=val2" c).
  vm_compute. reflexivity.
Defined.

Lemma OpenConnector_empty_query_witness :
  OpenConnector scriptedNewClient "http://example.com:8083?" =
    OpenConnector scriptedNewClient "http://example.com:8083" ∧
  OpenConnector scriptedNewClient "http://example.com:8083" =
    NewConnector scriptedNewClient [WithGatewayURL "http://example.com:8083"].
Proof.
  apply (OpenConnector_empty_query scriptedNewClient "http://example.com:8083").
  reflexivity.
Defined.


Lemma NewConnector_options_commute_witness :
  NewConnector scriptedNewClient
    [WithClient NilClient; WithGatewayURL "http://localhost:8083";
     WithProperties (Some {[ "execution.runtime-mode" := "STREAMING" ]});
     WithAPIVersion "v2"] =
  NewConnector scriptedNewClient
    [WithClient NilClient;
     WithProperties (Some {[ "execution.runtime-mode" := "STREAMING" ]});
     WithGatewayURL "http://localhost:8083"; WithAPIVersion "v2"].
Proof.
  apply (NewConnector_options_commute scriptedNewClient
           [SetClient NilClient] [SetAPIVersion "v2"]
           (SetGatewayURL "http://localhost:8083")
           (SetProperties (Some {[ "execution.runtime-mode" := "STREAMING" ]}))).
  discriminate.
Defined.

Lemma NewConnector_later_option_wins_witness :
  NewConnector scriptedNewClient
    [WithGatewayURL "http://localhost:8083"; WithAPIVersion "v1";
     WithGatewayURL "http://gateway:8083"] =
  NewConnector scriptedNewClient
    [WithAPIVersion "v1"; WithGatewayURL "http://gateway:8083"].
Proof.
  apply (NewConnector_later_option_wins scriptedNewClient
           [] [SetAPIVersion "v1"] []
           (SetGatewayURL "http://localhost:8083")
           (SetGatewayURL "http://gateway:8083")).
  - reflexivity.
  - discriminate.
Defined.

